(** * Voice-assistant session: a shallow embedding of the session code

    The development follows the TypeScript sources:
    - [utils/audioUtils.ts]: PCM16 encoding ([createBlob]), base64
      transport ([encode], [decode]) and PCM16 decoding ([decodeAudioData]);
    - [types.ts]: [CustomerDetails], [ChatMessage], [ConnectionState];
    - [utils/exportUtils.ts]: [exportToCSV];
    - [App.tsx]: the callbacks [onopen], [onmessage], [onclose], [onerror]
      and [disconnect] of the component, over an explicit store holding the
      component's React state, its refs and the platform objects they
      point to. *)

From Stdlib Require Import ZArith QArith Qminmax Qabs Lia Lqa.
From Stdlib Require Import Ascii String.
From Stdlib.Strings Require Import Byte.
From stdpp Require Import gmap strings list.

Local Open Scope Z_scope.

(** ** JavaScript numbers

    A sample of a [Float32Array] is a finite value, an infinity or NaN.
    Finite values are kept as exact rationals.  Every arithmetic step that
    [createBlob] and [decodeAudioData] perform on them is exact in IEEE
    double precision (a 24-bit significand times a 15- or 16-bit integer,
    a 16-bit integer over a power of two), so no rounding is lost by it. *)

Inductive number : Type :=
| Fin (q : Q)
| PosInf
| NegInf
| NaN.

(** [Math.min] and [Math.max] on two arguments: NaN is contagious. *)
Definition Math_min (a b : number) : number :=
  match a, b with
  | NaN, _ | _, NaN => NaN
  | NegInf, _ | _, NegInf => NegInf
  | PosInf, x | x, PosInf => x
  | Fin p, Fin q => Fin (Qmin p q)
  end.

Definition Math_max (a b : number) : number :=
  match a, b with
  | NaN, _ | _, NaN => NaN
  | PosInf, _ | _, PosInf => PosInf
  | NegInf, x | x, NegInf => x
  | Fin p, Fin q => Fin (Qmax p q)
  end.

(** [a < 0]: false on NaN. *)
Definition number_ltb0 (a : number) : bool :=
  match a with
  | Fin q => negb (Qle_bool 0 q)
  | NegInf => true
  | PosInf | NaN => false
  end.

(** [a * b]. *)
Definition number_mul (a b : number) : number :=
  match a, b with
  | NaN, _ | _, NaN => NaN
  | Fin p, Fin q => Fin (p * q)
  | Fin p, PosInf | PosInf, Fin p =>
      match (p ?= 0)%Q with Gt => PosInf | Lt => NegInf | Eq => NaN end
  | Fin p, NegInf | NegInf, Fin p =>
      match (p ?= 0)%Q with Gt => NegInf | Lt => PosInf | Eq => NaN end
  | PosInf, PosInf | NegInf, NegInf => PosInf
  | PosInf, NegInf | NegInf, PosInf => NegInf
  end.

(** Truncation toward zero of a rational. *)
Definition Qtrunc (q : Q) : Z := Z.quot (Qnum q) (Zpos (Qden q)).

(** Reduction modulo 2^16 into the signed range. *)
Definition wrap16 (z : Z) : Z := (z + 32768) mod 65536 - 32768.

(** The conversion applied when a number is stored into an [Int16Array]:
    NaN and the infinities become 0, a finite value is truncated toward
    zero and reduced modulo 2^16. *)
Definition ToInt16 (x : number) : Z :=
  match x with
  | Fin q => wrap16 (Qtrunc q)
  | PosInf | NegInf | NaN => 0
  end.

(** ** utils/audioUtils.ts *)

(** The clamp of [createBlob]: [Math.max(-1, Math.min(1, data[i]))]. *)
Definition clamp_sample (x : number) : number :=
  Math_max (Fin (-1 # 1)) (Math_min (Fin 1) x).

(** The body of the loop of [createBlob], for one sample:
    [int16[i] = s < 0 ? s * 0x8000 : s * 0x7FFF]. *)
Definition createBlob_sample (x : number) : Z :=
  let s := clamp_sample x in
  ToInt16 (if number_ltb0 s
           then number_mul s (Fin (32768 # 1))
           else number_mul s (Fin (32767 # 1))).

(** The [Int16Array] that the loop of [createBlob] fills. *)
Definition createBlob_int16 (data : list number) : list Z :=
  map createBlob_sample data.

Definition byte_of_Z (z : Z) : byte :=
  match Byte.of_N (Z.to_N (z mod 256)) with
  | Some b => b
  | None => x00
  end.

Definition Z_of_byte (b : byte) : Z := Z.of_N (Byte.to_N b).

(** [new Uint8Array(int16.buffer)]: the bytes of the 16-bit elements, two's
    complement, low byte first. *)
Definition Uint8Array_of_Int16Array (l : list Z) : list byte :=
  flat_map (fun v => [byte_of_Z (v mod 65536); byte_of_Z ((v mod 65536) / 256)]) l.

(** [new Int16Array(data.buffer)]: a [RangeError] when the byte length is
    odd, rendered by [None]. *)
Fixpoint Int16Array_of_buffer (bytes : list byte) : option (list Z) :=
  match bytes with
  | [] => Some []
  | [_] => None
  | lo :: hi :: rest =>
      let u := Z_of_byte lo + 256 * Z_of_byte hi in
      let v := if u <? 32768 then u else u - 65536 in
      match Int16Array_of_buffer rest with
      | Some l => Some (v :: l)
      | None => None
      end
  end.

(** *** base64 ([btoa] and [atob]) *)

Definition base64_char (n : N) : ascii :=
  if (n <? 26)%N then ascii_of_N (n + 65)
  else if (n <? 52)%N then ascii_of_N (n - 26 + 97)
  else if (n <? 62)%N then ascii_of_N (n - 52 + 48)
  else if (n =? 62)%N then "+"%char
  else "/"%char.

Definition base64_index (c : ascii) : option N :=
  let n := N_of_ascii c in
  if ((65 <=? n) && (n <=? 90))%N then Some (n - 65)%N
  else if ((97 <=? n) && (n <=? 122))%N then Some (n - 97 + 26)%N
  else if ((48 <=? n) && (n <=? 57))%N then Some (n - 48 + 52)%N
  else if (n =? 43)%N then Some 62%N
  else if (n =? 47)%N then Some 63%N
  else None.

(** [btoa] on the binary string whose characters are the given bytes. *)
Fixpoint btoa (bytes : list byte) : list ascii :=
  match bytes with
  | [] => []
  | [a] =>
      let n := (Byte.to_N a * 65536)%N in
      [base64_char (n / 262144); base64_char ((n / 4096) mod 64);
       "="%char; "="%char]
  | [a; b] =>
      let n := (Byte.to_N a * 65536 + Byte.to_N b * 256)%N in
      [base64_char (n / 262144); base64_char ((n / 4096) mod 64);
       base64_char ((n / 64) mod 64); "="%char]
  | a :: b :: c :: rest =>
      let n := (Byte.to_N a * 65536 + Byte.to_N b * 256 + Byte.to_N c)%N in
      base64_char (n / 262144) :: base64_char ((n / 4096) mod 64)
      :: base64_char ((n / 64) mod 64) :: base64_char (n mod 64)
      :: btoa rest
  end.

Definition is_ascii_whitespace (c : ascii) : bool :=
  let n := N_of_ascii c in
  ((n =? 9) || (n =? 10) || (n =? 12) || (n =? 13) || (n =? 32))%N.

Definition byte_of_N (n : N) : byte := byte_of_Z (Z.of_N n).

(** The sextets of the payload, four at a time; a tail of two or three
    sextets yields one or two bytes, its low bits dropped. *)
Fixpoint atob_sextets (l : list N) : list byte :=
  match l with
  | a :: b :: c :: d :: rest =>
      let n := (a * 262144 + b * 4096 + c * 64 + d)%N in
      byte_of_N (n / 65536) :: byte_of_N ((n / 256) mod 256)
      :: byte_of_N (n mod 256) :: atob_sextets rest
  | [a; b; c] =>
      let n := (a * 262144 + b * 4096 + c * 64)%N in
      [byte_of_N (n / 65536); byte_of_N ((n / 256) mod 256)]
  | [a; b] =>
      let n := (a * 262144 + b * 4096)%N in
      [byte_of_N (n / 65536)]
  | _ => []
  end.

(** The removal of one or two trailing [=] from a payload whose length is
    a multiple of four. *)
Definition strip_padding (l : list ascii) : list ascii :=
  if (length l mod 4 =? 0)%nat then
    match reverse l with
    | c1 :: r1 =>
        if Ascii.eqb c1 "="%char then
          match r1 with
          | c2 :: r2 => if Ascii.eqb c2 "="%char then reverse r2 else reverse r1
          | [] => reverse r1
          end
        else l
    | [] => l
    end
  else l.

(** [atob], the forgiving base64 decoder of the platform: white space is
    removed, up to two padding characters are dropped from a payload whose
    length is a multiple of four, and a payload of length 1 modulo 4 or
    holding a character outside the alphabet raises
    [InvalidCharacterError] ([None]). *)
Definition atob (s : list ascii) : option (list byte) :=
  let l := strip_padding (filter (fun c => is_ascii_whitespace c = false) s) in
  if (length l mod 4 =? 1)%nat then None
  else match mapM base64_index l with
       | Some sextets => Some (atob_sextets sextets)
       | None => None
       end.

(** [encode]: the bytes as a binary string, through [btoa]. *)
Definition encode (bytes : list byte) : string :=
  string_of_list_ascii (btoa bytes).

(** [decode]: [atob], then the character codes of the binary string. *)
Definition decode (base64 : string) : option (list byte) :=
  atob (list_ascii_of_string base64).

Record Blob : Type := mkBlob { blob_data : string; blob_mimeType : string }.

Definition createBlob (data : list number) : Blob :=
  {| blob_data := encode (Uint8Array_of_Int16Array (createBlob_int16 data));
     blob_mimeType := "audio/pcm;rate=16000" |}.

(** An [AudioBuffer]: per channel, the samples that [getChannelData]
    exposes.  The frame count is the [length] attribute. *)
Record AudioBuffer : Type := mkAudioBuffer {
  numberOfChannels : nat;
  buffer_length : nat;
  sampleRate : positive;
  channelData : list (list Q)
}.

(** [buffer.duration], in seconds. *)
Definition duration (b : AudioBuffer) : Q :=
  Z.of_nat (buffer_length b) # sampleRate b.

(** The loop of [decodeAudioData] for one channel:
    [channelData[i] = dataInt16[i * numChannels + channel] / 32768.0]. *)
Definition decode_channel (dataInt16 : list Z) (numChannels frameCount channel : nat)
  : list Q :=
  map (fun i => default 0 (dataInt16 !! (i * numChannels + channel)%nat) # 32768)
      (seq 0 frameCount).

(** [decodeAudioData(data, ctx, sampleRate, numChannels)].  [None] stands
    for a rejected promise: the [RangeError] of [Int16Array_of_buffer], or
    the [NotSupportedError] of [ctx.createBuffer] for a channel count or a
    frame count of zero.  A frame count that is not an integer is truncated
    by [createBuffer]; the writes of the loop past the end of the channel
    are ignored. *)
Definition decodeAudioData (data : list byte) (sampleRate : positive)
    (numChannels : nat) : option AudioBuffer :=
  match Int16Array_of_buffer data with
  | None => None
  | Some dataInt16 =>
      let frameCount := (length dataInt16 / numChannels)%nat in
      if ((numChannels =? 0) || (frameCount =? 0))%nat then None
      else Some {| numberOfChannels := numChannels;
                   buffer_length := frameCount;
                   sampleRate := sampleRate;
                   channelData :=
                     map (decode_channel dataInt16 numChannels frameCount)
                         (seq 0 numChannels) |}
  end.


(** ** types.ts *)

(** A value read from an untyped object ([args as any]): a string, or
    [undefined] when the property is absent. *)
Inductive JsValue : Type :=
| JsUndefined
| JsString (s : string).

(** The string that a template literal [`${v}`] yields. *)
Definition template (v : JsValue) : string :=
  match v with
  | JsUndefined => "undefined"
  | JsString s => s
  end.

Record CustomerDetails : Type := mkCustomerDetails {
  fullName : JsValue;
  phoneNumber : JsValue;
  monthlyIncome : JsValue;
  age : JsValue;
  insuranceType : JsValue;
  timestamp : string
}.

Inductive Role : Type := user | model | system.

(** A [Date], as its time value in milliseconds. *)
Definition Date : Type := Z.

Record ChatMessage : Type := mkChatMessage {
  role : Role;
  text : string;
  message_timestamp : Date
}.

Inductive ConnectionState : Type :=
| DISCONNECTED
| CONNECTING
| CONNECTED
| ERROR.

(** An element of [ToolCallResponse.functionResponses]; [fr_result] is the
    [result] property of its [response] object. *)
Record FunctionResponse : Type := mkFunctionResponse {
  fr_id : string;
  fr_name : string;
  fr_result : string
}.

(** ** Inbound messages

    The part of [LiveServerMessage] that [onmessage] reads.  A property the
    handler reaches through [?.] or tests before use is optional; one it
    dereferences without a guard ([toolCall.functionCalls], [fc.args], the
    [text] of a transcription) is a field of the record. *)

Record InlineData : Type := mkInlineData { data : option string }.
Record Part : Type := mkPart { inlineData : option InlineData }.
Record Content : Type := mkContent { parts : option (list Part) }.
Record Transcription : Type := mkTranscription { transcription_text : string }.

Record LiveServerContent : Type := mkLiveServerContent {
  modelTurn : option Content;
  inputTranscription : option Transcription;
  outputTranscription : option Transcription;
  turnComplete : bool
}.

Record FunctionCall : Type := mkFunctionCall {
  fc_id : string;
  fc_name : string;
  fc_args : gmap string string
}.

Record LiveServerToolCall : Type := mkLiveServerToolCall {
  functionCalls : list FunctionCall
}.

Record LiveServerMessage : Type := mkLiveServerMessage {
  serverContent : option LiveServerContent;
  toolCall : option LiveServerToolCall
}.

(** [args.k] on the argument object. *)
Definition property (args : gmap string string) (k : string) : JsValue :=
  match args !! k with
  | Some s => JsString s
  | None => JsUndefined
  end.

(** [message.serverContent?.modelTurn?.parts?.[0]?.inlineData?.data] *)
Definition base64Audio_of (message : LiveServerMessage) : option string :=
  sc ← serverContent message;
  turn ← modelTurn sc;
  ps ← parts turn;
  p ← head ps;
  inline ← inlineData p;
  data inline.

(** Truthiness of an optional string: [undefined] and the empty string are
    falsy. *)
Definition truthy (s : option string) : bool :=
  match s with
  | Some (String _ _) => true
  | _ => false
  end.

Definition nonempty (s : string) : bool :=
  match s with
  | String _ _ => true
  | EmptyString => false
  end.

(** ** Platform objects *)

Inductive AudioContextState : Type := running | closed.

(** A source node created by [ctx.createBufferSource()], with the buffer
    assigned to it and the [when] argument of its [start] call. *)
Record AudioBufferSourceNode : Type := mkSource {
  node_id : nat;
  node_buffer : AudioBuffer;
  node_when : Q
}.

(** An [AudioContext]: its state, how many times [close()] was called on
    it, and the sources started on it, in the order of the [start] calls. *)
Record AudioContext : Type := mkAudioContext {
  ctx_sampleRate : positive;
  ctx_state : AudioContextState;
  ctx_close_calls : nat;
  ctx_started : list AudioBufferSourceNode
}.

(** A track of the microphone stream: whether it is live, and how many
    times [stop()] was called on it. *)
Record MediaStreamTrack : Type := mkTrack {
  track_live : bool;
  track_stop_calls : nat
}.

(** The live session that [ai.live.connect] resolves to: whether its
    channel is open, how many times [close()] was called on it, and the
    batches handed to [sendToolResponse], oldest first. *)
Record Session : Type := mkSession {
  session_open : bool;
  session_close_calls : nat;
  toolResponses : list (list FunctionResponse)
}.

(** The content of [sessionPromiseRef]: [null], or the promise of the
    session.  One connection is modelled, so there is one such promise; it
    is the constant [sessionPromise] that the callbacks close over. *)
Inductive PromiseRef : Type := null | sessionPromise.

(** ** The refs of the component *)

Record Refs : Type := mkRefs {
  inputAudioContextRef : option AudioContext;
  outputAudioContextRef : option AudioContext;
  nextStartTimeRef : Q;
  sourcesRef : gset nat;
  streamRef : option (list MediaStreamTrack);
  sessionPromiseRef : PromiseRef;
  currentInputTranscription : string;
  currentOutputTranscription : string
}.

(** ** React state

    [useState] keeps, per state variable, the value of the last render and
    a queue of pending updates.  A setter called with a function queues
    that function; React runs it when it processes the queue, at the next
    render.  Only when neither the fiber of the component nor its alternate
    has work marked on it does the setter run the function at once and
    queue its result with it (the eager state), which the render then
    takes as it is.  The function is a closure: what it reads from a ref,
    it reads when it runs. *)

Record Update (S : Type) : Type := mkUpdate {
  action : Refs -> Date -> S -> S;
  eagerState : option S
}.
Arguments mkUpdate {S} _ _.
Arguments action {S} _ _ _ _.
Arguments eagerState {S} _.

Record Hook (S : Type) : Type := mkHook {
  memoizedState : S;
  queue : list (Update S)
}.
Arguments mkHook {S} _ _.
Arguments memoizedState {S} _.
Arguments queue {S} _.

(** The store: the five state variables of [App], its refs, the session
    behind [sessionPromise], the rejected promises that nothing handles
    (by the name of their exception), the next identity that a created
    node receives, and whether the alternate of the component's fiber still
    has lanes marked from the render before: a render that changes some
    state swaps the two fibers and clears the lanes of the new one only. *)
Record App : Type := mkApp {
  connectionState : Hook ConnectionState;
  customerData : Hook (list CustomerDetails);
  transcripts : Hook (list ChatMessage);
  volumeLevel : Hook Q;
  isSpeaking : Hook bool;
  refs : Refs;
  session : Session;
  unhandledRejections : list string;
  nextNodeId : nat;
  alternateLanes : bool
}.

Definition idle {S} (h : Hook S) : bool :=
  match queue h with [] => true | _ => false end.

(** Whether an update is queued on the component (React's [fiber.lanes]). *)
Definition scheduled (a : App) : bool :=
  negb (idle (connectionState a) && idle (customerData a) && idle (transcripts a)
        && idle (volumeLevel a) && idle (isSpeaking a)).

(** The test of [dispatchSetState] before it runs an action eagerly: the
    fiber or its alternate has lanes marked. *)
Definition lanes (a : App) : bool := scheduled a || alternateLanes a.

(** React's [dispatchSetState]. [same] is [Object.is] on the state type. *)
Definition dispatchSetState {S} (same : S -> S -> bool)
    (act : Refs -> Date -> S -> S) (pending : bool) (r : Refs) (now : Date)
    (h : Hook S) : Hook S :=
  if pending then mkHook (memoizedState h) (queue h ++ [mkUpdate act None])
  else
    let eager := act r now (memoizedState h) in
    if same eager (memoizedState h) then h
    else mkHook (memoizedState h) (queue h ++ [mkUpdate act (Some eager)]).

(** The processing of a queue at render. *)
Definition processQueue {S} (r : Refs) (now : Date) (h : Hook S) : Hook S :=
  mkHook
    (fold_left (fun s u => match eagerState u with
                           | Some e => e
                           | None => action u r now s
                           end) (queue h) (memoizedState h))
    [].

Definition ConnectionState_eqb (x y : ConnectionState) : bool :=
  match x, y with
  | DISCONNECTED, DISCONNECTED | CONNECTING, CONNECTING
  | CONNECTED, CONNECTED | ERROR, ERROR => true
  | _, _ => false
  end.

(** A freshly built array is identical to no other. *)
Definition fresh_array {A} (_ _ : list A) : bool := false.

(** Whether processing the queue of [h] yields a state that [same] tells
    apart from that of the last render. *)
Definition receivedUpdate {S} (same : S -> S -> bool) (r : Refs) (now : Date)
    (h : Hook S) : bool :=
  negb (idle h)
  && negb (same (memoizedState (processQueue r now h)) (memoizedState h)).

(** A render of the component at wall-clock time [now].  With nothing
    queued the component is not rendered.  Otherwise the queues are
    processed on the alternate, which becomes the fiber with its lanes
    cleared; the fiber it replaces keeps the lanes of the queued updates
    when some state changed, and has them removed when none did. *)
Definition render (now : Date) (a : App) : App :=
  let r := refs a in
  {| connectionState := processQueue r now (connectionState a);
     customerData := processQueue r now (customerData a);
     transcripts := processQueue r now (transcripts a);
     volumeLevel := processQueue r now (volumeLevel a);
     isSpeaking := processQueue r now (isSpeaking a);
     refs := r;
     session := session a;
     unhandledRejections := unhandledRejections a;
     nextNodeId := nextNodeId a;
     alternateLanes :=
       if scheduled a then
         receivedUpdate ConnectionState_eqb r now (connectionState a)
         || receivedUpdate fresh_array r now (customerData a)
         || receivedUpdate fresh_array r now (transcripts a)
         || receivedUpdate Qeq_bool r now (volumeLevel a)
         || receivedUpdate Bool.eqb r now (isSpeaking a)
       else alternateLanes a |}.

Definition with_refs (f : Refs -> Refs) (a : App) : App :=
  {| connectionState := connectionState a; customerData := customerData a;
     transcripts := transcripts a; volumeLevel := volumeLevel a;
     isSpeaking := isSpeaking a; refs := f (refs a); session := session a;
     unhandledRejections := unhandledRejections a; nextNodeId := nextNodeId a;
     alternateLanes := alternateLanes a |}.

Definition setConnectionState (v : ConnectionState) (a : App) : App :=
  {| connectionState :=
       dispatchSetState ConnectionState_eqb (fun _ _ _ => v) (lanes a) (refs a) 0
         (connectionState a);
     customerData := customerData a; transcripts := transcripts a;
     volumeLevel := volumeLevel a; isSpeaking := isSpeaking a; refs := refs a;
     session := session a; unhandledRejections := unhandledRejections a;
     nextNodeId := nextNodeId a;
     alternateLanes := alternateLanes a |}.

Definition setCustomerData
    (f : Refs -> Date -> list CustomerDetails -> list CustomerDetails)
    (now : Date) (a : App) : App :=
  {| connectionState := connectionState a;
     customerData :=
       dispatchSetState fresh_array f (lanes a) (refs a) now (customerData a);
     transcripts := transcripts a;
     volumeLevel := volumeLevel a; isSpeaking := isSpeaking a; refs := refs a;
     session := session a; unhandledRejections := unhandledRejections a;
     nextNodeId := nextNodeId a;
     alternateLanes := alternateLanes a |}.

Definition setTranscripts
    (f : Refs -> Date -> list ChatMessage -> list ChatMessage)
    (now : Date) (a : App) : App :=
  {| connectionState := connectionState a; customerData := customerData a;
     transcripts :=
       dispatchSetState fresh_array f (lanes a) (refs a) now (transcripts a);
     volumeLevel := volumeLevel a; isSpeaking := isSpeaking a; refs := refs a;
     session := session a; unhandledRejections := unhandledRejections a;
     nextNodeId := nextNodeId a;
     alternateLanes := alternateLanes a |}.

Definition setVolumeLevel (v : Q) (a : App) : App :=
  {| connectionState := connectionState a; customerData := customerData a;
     transcripts := transcripts a;
     volumeLevel :=
       dispatchSetState Qeq_bool (fun _ _ _ => v) (lanes a) (refs a) 0 (volumeLevel a);
     isSpeaking := isSpeaking a; refs := refs a;
     session := session a; unhandledRejections := unhandledRejections a;
     nextNodeId := nextNodeId a;
     alternateLanes := alternateLanes a |}.

Definition setIsSpeaking (v : bool) (a : App) : App :=
  {| connectionState := connectionState a; customerData := customerData a;
     transcripts := transcripts a; volumeLevel := volumeLevel a;
     isSpeaking :=
       dispatchSetState Bool.eqb (fun _ _ _ => v) (lanes a) (refs a) 0 (isSpeaking a);
     refs := refs a;
     session := session a; unhandledRejections := unhandledRejections a;
     nextNodeId := nextNodeId a;
     alternateLanes := alternateLanes a |}.

(** ** Callbacks

    A callback runs on the store and either completes or throws; what it
    did to the store before throwing stays done. *)

Inductive Outcome (A : Type) : Type :=
| Done (x : A)
| Thrown.
Arguments Done {A} _.
Arguments Thrown {A}.

Definition Handler (A : Type) : Type := App -> Outcome A * App.

#[export] Instance Handler_ret : MRet Handler := fun A x a => (Done x, a).

#[export] Instance Handler_bind : MBind Handler := fun A B f m a =>
  match m a with
  | (Done x, a') => f x a'
  | (Thrown, a') => (Thrown, a')
  end.

Definition modify (f : App -> App) : Handler unit := fun a => (Done tt, f a).

Definition gets {A} (f : App -> A) : Handler A := fun a => (Done (f a), a).

(** [await] on a promise that is already settled: its value, or the
    exception it was rejected with. *)
Definition await {A} (p : option A) : Handler A := fun a =>
  match p with
  | Some x => (Done x, a)
  | None => (Thrown, a)
  end.

Definition set_nextStartTimeRef (t : Q) (r : Refs) : Refs :=
  {| inputAudioContextRef := inputAudioContextRef r;
     outputAudioContextRef := outputAudioContextRef r;
     nextStartTimeRef := t; sourcesRef := sourcesRef r; streamRef := streamRef r;
     sessionPromiseRef := sessionPromiseRef r;
     currentInputTranscription := currentInputTranscription r;
     currentOutputTranscription := currentOutputTranscription r |}.

Definition set_sourcesRef (s : gset nat) (r : Refs) : Refs :=
  {| inputAudioContextRef := inputAudioContextRef r;
     outputAudioContextRef := outputAudioContextRef r;
     nextStartTimeRef := nextStartTimeRef r; sourcesRef := s; streamRef := streamRef r;
     sessionPromiseRef := sessionPromiseRef r;
     currentInputTranscription := currentInputTranscription r;
     currentOutputTranscription := currentOutputTranscription r |}.

Definition set_outputAudioContextRef (c : option AudioContext) (r : Refs) : Refs :=
  {| inputAudioContextRef := inputAudioContextRef r;
     outputAudioContextRef := c;
     nextStartTimeRef := nextStartTimeRef r; sourcesRef := sourcesRef r;
     streamRef := streamRef r; sessionPromiseRef := sessionPromiseRef r;
     currentInputTranscription := currentInputTranscription r;
     currentOutputTranscription := currentOutputTranscription r |}.

Definition set_inputAudioContextRef (c : option AudioContext) (r : Refs) : Refs :=
  {| inputAudioContextRef := c;
     outputAudioContextRef := outputAudioContextRef r;
     nextStartTimeRef := nextStartTimeRef r; sourcesRef := sourcesRef r;
     streamRef := streamRef r; sessionPromiseRef := sessionPromiseRef r;
     currentInputTranscription := currentInputTranscription r;
     currentOutputTranscription := currentOutputTranscription r |}.

Definition set_streamRef (s : option (list MediaStreamTrack)) (r : Refs) : Refs :=
  {| inputAudioContextRef := inputAudioContextRef r;
     outputAudioContextRef := outputAudioContextRef r;
     nextStartTimeRef := nextStartTimeRef r; sourcesRef := sourcesRef r;
     streamRef := s; sessionPromiseRef := sessionPromiseRef r;
     currentInputTranscription := currentInputTranscription r;
     currentOutputTranscription := currentOutputTranscription r |}.

Definition set_sessionPromiseRef (p : PromiseRef) (r : Refs) : Refs :=
  {| inputAudioContextRef := inputAudioContextRef r;
     outputAudioContextRef := outputAudioContextRef r;
     nextStartTimeRef := nextStartTimeRef r; sourcesRef := sourcesRef r;
     streamRef := streamRef r; sessionPromiseRef := p;
     currentInputTranscription := currentInputTranscription r;
     currentOutputTranscription := currentOutputTranscription r |}.

Definition set_currentInputTranscription (s : string) (r : Refs) : Refs :=
  {| inputAudioContextRef := inputAudioContextRef r;
     outputAudioContextRef := outputAudioContextRef r;
     nextStartTimeRef := nextStartTimeRef r; sourcesRef := sourcesRef r;
     streamRef := streamRef r; sessionPromiseRef := sessionPromiseRef r;
     currentInputTranscription := s;
     currentOutputTranscription := currentOutputTranscription r |}.

Definition set_currentOutputTranscription (s : string) (r : Refs) : Refs :=
  {| inputAudioContextRef := inputAudioContextRef r;
     outputAudioContextRef := outputAudioContextRef r;
     nextStartTimeRef := nextStartTimeRef r; sourcesRef := sourcesRef r;
     streamRef := streamRef r; sessionPromiseRef := sessionPromiseRef r;
     currentInputTranscription := currentInputTranscription r;
     currentOutputTranscription := s |}.

Definition with_session (f : Session -> Session) (a : App) : App :=
  {| connectionState := connectionState a; customerData := customerData a;
     transcripts := transcripts a; volumeLevel := volumeLevel a;
     isSpeaking := isSpeaking a; refs := refs a; session := f (session a);
     unhandledRejections := unhandledRejections a; nextNodeId := nextNodeId a;
     alternateLanes := alternateLanes a |}.

(** [source.start(when)] on a source of the context [ctx]. *)
Definition AudioContext_start (src : AudioBufferSourceNode) (ctx : AudioContext)
  : AudioContext :=
  {| ctx_sampleRate := ctx_sampleRate ctx; ctx_state := ctx_state ctx;
     ctx_close_calls := ctx_close_calls ctx;
     ctx_started := ctx_started ctx ++ [src] |}.

(** Lines 149 to 160 of [onmessage]: the source node is created on [ctx],
    given the buffer, started at the cursor, the cursor is advanced by the
    duration of the buffer and the node joins [sourcesRef]. *)
Definition scheduleSource (audioBuffer : AudioBuffer) (a : App) : App :=
  let r := refs a in
  let source := {| node_id := nextNodeId a; node_buffer := audioBuffer;
                   node_when := nextStartTimeRef r |} in
  {| connectionState := connectionState a; customerData := customerData a;
     transcripts := transcripts a; volumeLevel := volumeLevel a;
     isSpeaking := isSpeaking a;
     refs :=
       set_sourcesRef ({[ node_id source ]} ∪ sourcesRef r)
         (set_nextStartTimeRef (nextStartTimeRef r + duration audioBuffer)%Q
            (set_outputAudioContextRef
               (AudioContext_start source <$> outputAudioContextRef r) r));
     session := session a; unhandledRejections := unhandledRejections a;
     nextNodeId := S (nextNodeId a);
     alternateLanes := alternateLanes a |}.

(** The listener of the [ended] event of the source [id]. *)
Definition source_ended (id : nat) (a : App) : App :=
  let a1 := with_refs (fun r => set_sourcesRef (sourcesRef r ∖ {[ id ]}) r) a in
  if (size (sourcesRef (refs a1)) =? 0)%nat then setIsSpeaking false a1 else a1.

Section Platform.

(** [Date.prototype.toLocaleString] and [toISOString], of the platform. *)
Variable toLocaleString : Date -> string.
Variable toISOString : Date -> string.

(** *** [onmessage], lines 133 to 162: audio output.
    [currentTime] is the value of [ctx.currentTime] that the handler
    reads. *)
Definition handleAudio (message : LiveServerMessage) (currentTime : Q)
  : Handler unit :=
  let base64Audio := base64Audio_of message in
  if truthy base64Audio then
    modify (setIsSpeaking true) ;;
    ctx ← gets (fun a => outputAudioContextRef (refs a));
    match ctx with
    | Some _ =>
        modify (with_refs (fun r =>
          set_nextStartTimeRef (Qmax (nextStartTimeRef r) currentTime) r)) ;;
        audioBuffer ← await (bytes ← decode (default EmptyString base64Audio);
                             decodeAudioData bytes 24000 1);
        modify (scheduleSource audioBuffer)
    | None => mret tt
    end
  else mret tt.

(** Lines 164 to 170: transcription deltas. *)
Definition handleTranscriptions (message : LiveServerMessage) : Handler unit :=
  match serverContent message ≫= inputTranscription with
  | Some t =>
      modify (with_refs (fun r =>
        set_currentInputTranscription
          (currentInputTranscription r +:+ transcription_text t) r))
  | None => mret tt
  end ;;
  match serverContent message ≫= outputTranscription with
  | Some t =>
      modify (with_refs (fun r =>
        set_currentOutputTranscription
          (currentOutputTranscription r +:+ transcription_text t) r))
  | None => mret tt
  end.

(** Lines 172 to 190: turn completion.  The functions given to
    [setTranscripts] read the transcription refs and the clock when they
    run. *)
Definition handleTurnComplete (message : LiveServerMessage) (now : Date)
  : Handler unit :=
  if default false (turnComplete <$> serverContent message) then
    input ← gets (fun a => currentInputTranscription (refs a));
    (if nonempty input then
       modify (setTranscripts (fun r d prev =>
         prev ++ [ {| role := user; text := currentInputTranscription r;
                      message_timestamp := d |} ]) now) ;;
       modify (with_refs (set_currentInputTranscription EmptyString))
     else mret tt) ;;
    output ← gets (fun a => currentOutputTranscription (refs a));
    (if nonempty output then
       modify (setTranscripts (fun r d prev =>
         prev ++ [ {| role := model; text := currentOutputTranscription r;
                      message_timestamp := d |} ]) now) ;;
       modify (with_refs (set_currentOutputTranscription EmptyString))
     else mret tt)
  else mret tt.

(** The record that the handler builds from the arguments of a call. *)
Definition newCustomer (fc : FunctionCall) (now : Date) : CustomerDetails :=
  let args := fc_args fc in
  {| fullName := property args "fullName";
     phoneNumber := property args "phoneNumber";
     monthlyIncome := property args "monthlyIncome";
     age := property args "age";
     insuranceType := property args "insuranceType";
     timestamp := toLocaleString now |}.

(** Lines 194 to 215: the function mapped over [functionCalls]. *)
Definition handleFunctionCall (now : Date) (fc : FunctionCall)
  : Handler FunctionResponse :=
  if String.eqb (fc_name fc) "saveCustomerDetails" then
    let c := newCustomer fc now in
    modify (setCustomerData (fun _ _ prev => prev ++ [c]) now) ;;
    mret {| fr_id := fc_id fc; fr_name := fc_name fc;
            fr_result := "Success: Customer details saved." |}
  else
    mret {| fr_id := fc_id fc; fr_name := fc_name fc;
            fr_result := "Unknown function" |}.

(** [session.sendToolResponse({ functionResponses: responses })] *)
Definition sendToolResponse (responses : list FunctionResponse) (s : Session)
  : Session :=
  {| session_open := session_open s;
     session_close_calls := session_close_calls s;
     toolResponses := toolResponses s ++ [responses] |}.

(** Lines 192 to 220: tool calls. *)
Definition handleToolCall (message : LiveServerMessage) (now : Date)
  : Handler unit :=
  match toolCall message with
  | Some tc =>
      responses ← mapM (handleFunctionCall now) (functionCalls tc);
      modify (with_session (sendToolResponse responses))
  | None => mret tt
  end.

(** [onmessage], called with the message, the reading of the output
    clock and the wall-clock time. *)
Definition onmessage (message : LiveServerMessage) (currentTime : Q)
    (now : Date) : Handler unit :=
  handleAudio message currentTime ;;
  handleTranscriptions message ;;
  handleTurnComplete message now ;;
  handleToolCall message now.

(** The store after a callback, whatever its outcome. *)
Definition run {A} (h : Handler A) (a : App) : App := snd (h a).

(** [onopen]: the state becomes CONNECTED.  The capture wiring of lines
    108 to 130 (microphone frames through [createBlob] to the session, and
    the level meter) is not part of the store. *)
Definition onopen (a : App) : App := setConnectionState CONNECTED a.

(** [onclose] and [onerror], lines 222 to 230. *)
Definition onclose (a : App) : App :=
  setIsSpeaking false (setConnectionState DISCONNECTED a).

Definition onerror (a : App) : App :=
  setIsSpeaking false (setConnectionState ERROR a).

(** [close()] of an [AudioContext]: a running context becomes closed; on
    a closed one the promise that [close()] returns is rejected with
    [InvalidStateError]. *)
Definition AudioContext_close (ctx : AudioContext)
  : AudioContext * option string :=
  ({| ctx_sampleRate := ctx_sampleRate ctx; ctx_state := closed;
      ctx_close_calls := S (ctx_close_calls ctx);
      ctx_started := ctx_started ctx |},
   match ctx_state ctx with
   | running => None
   | closed => Some "InvalidStateError"%string
   end).

(** [track.stop()] *)
Definition MediaStreamTrack_stop (t : MediaStreamTrack) : MediaStreamTrack :=
  {| track_live := false; track_stop_calls := S (track_stop_calls t) |}.

(** [session.close()] *)
Definition Session_close (s : Session) : Session :=
  {| session_open := false;
     session_close_calls := S (session_close_calls s);
     toolResponses := toolResponses s |}.

(** A promise rejected with [e] that nothing awaits or catches. *)
Definition reject (e : option string) (a : App) : App :=
  {| connectionState := connectionState a; customerData := customerData a;
     transcripts := transcripts a; volumeLevel := volumeLevel a;
     isSpeaking := isSpeaking a; refs := refs a; session := session a;
     unhandledRejections := unhandledRejections a ++ option_list e;
     nextNodeId := nextNodeId a;
     alternateLanes := alternateLanes a |}.

(** [disconnect], lines 242 to 259, once the promise in
    [sessionPromiseRef] is settled.  No ref is assigned. *)
Definition disconnect (a : App) : App :=
  let a1 := match sessionPromiseRef (refs a) with
            | sessionPromise => with_session Session_close a
            | null => a
            end in
  let a2 := match inputAudioContextRef (refs a1) with
            | Some ctx =>
                let (ctx', e) := AudioContext_close ctx in
                reject e (with_refs (set_inputAudioContextRef (Some ctx')) a1)
            | None => a1
            end in
  let a3 := match outputAudioContextRef (refs a2) with
            | Some ctx =>
                let (ctx', e) := AudioContext_close ctx in
                reject e (with_refs (set_outputAudioContextRef (Some ctx')) a2)
            | None => a2
            end in
  let a4 := match streamRef (refs a3) with
            | Some tracks =>
                with_refs (set_streamRef (Some (map MediaStreamTrack_stop tracks))) a3
            | None => a3
            end in
  setVolumeLevel 0 (setIsSpeaking false (setConnectionState DISCONNECTED a4)).

Definition newAudioContext (rate : positive) : AudioContext :=
  {| ctx_sampleRate := rate; ctx_state := running; ctx_close_calls := 0;
     ctx_started := [] |}.

(** [connectToGemini], up to the assignment of [sessionPromiseRef].
    [API_KEY] tells whether the key is set; [getUserMedia] is the stream
    that the platform grants, or [None] when it refuses. *)
Definition connectToGemini (API_KEY : bool)
    (getUserMedia : option (list MediaStreamTrack)) (a : App) : App :=
  if API_KEY then
    let a1 := setConnectionState CONNECTING a in
    let a2 := with_refs (fun r =>
                set_nextStartTimeRef 0
                  (set_outputAudioContextRef (Some (newAudioContext 24000))
                     (set_inputAudioContextRef (Some (newAudioContext 16000)) r)))
                a1 in
    match getUserMedia with
    | Some stream =>
        with_refs (set_sessionPromiseRef sessionPromise)
          (with_session (fun _ => {| session_open := true;
                                     session_close_calls := 0;
                                     toolResponses := [] |})
             (with_refs (set_streamRef (Some stream)) a2))
    | None => setConnectionState ERROR a2
    end
  else a.

(** ** utils/exportUtils.ts *)

Definition dquote : string := String "034"%char EmptyString.
Definition newline : string := String "010"%char EmptyString.

(** The template literal that wraps [s] in double quotes. *)
Definition quoted (s : string) : string := dquote +:+ s +:+ dquote.

(** [Array.prototype.join] *)
Fixpoint join (sep : string) (l : list string) : string :=
  match l with
  | [] => EmptyString
  | [x] => x
  | x :: rest => x +:+ sep +:+ join sep rest
  end.

(** The [replace] call of line 26, with the [g] flag: every double quote
    of [s] is doubled. *)
Fixpoint escape_quotes (s : string) : string :=
  match s with
  | EmptyString => EmptyString
  | String c rest =>
      if Ascii.eqb c "034"%char
      then String c (String c (escape_quotes rest))
      else String c (escape_quotes rest)
  end.

Definition Role_string (r : Role) : string :=
  match r with
  | user => "user"
  | model => "model"
  | system => "system"
  end.

(** Lines 7 to 14: the row of a customer record. *)
Definition customerRow (c : CustomerDetails) : list string :=
  [ quoted (template (fullName c));
    quoted (template (phoneNumber c));
    quoted (template (monthlyIncome c));
    quoted (template (age c));
    quoted (template (insuranceType c));
    quoted (timestamp c) ].

(** Lines 6 to 16: the content of the customer file. *)
Definition customerCsv (customerData : list CustomerDetails) : string :=
  let headers := ["Full Name"; "Phone"; "Income"; "Age"; "Insurance Type";
                  "Timestamp"]%string in
  join newline (join "," headers :: map (fun r => join "," r)
                                       (map customerRow customerData)).

(** Lines 23 to 27: the row of a chat message. *)
Definition transcriptRow (t : ChatMessage) : list string :=
  [ quoted (toISOString (message_timestamp t));
    quoted (Role_string (role t));
    quoted (escape_quotes (text t)) ].

(** Lines 22 to 29: the content of the transcript file. *)
Definition transcriptCsv (transcript : list ChatMessage) : string :=
  let tHeaders := ["Timestamp"; "Role"; "Message"]%string in
  join newline (join "," tHeaders :: map (fun r => join "," r)
                                        (map transcriptRow transcript)).

(** A call of [downloadFile]. *)
Record Download : Type := mkDownload {
  download_content : string;
  download_filename : string
}.

(** [exportToCSV], as the list of the files it hands to [downloadFile];
    [now] is the wall-clock time. *)
Definition exportToCSV (customerData : list CustomerDetails)
    (transcript : list ChatMessage) (now : Date) : list Download :=
  (match customerData with
   | [] => []
   | _ => [ {| download_content := customerCsv customerData;
               download_filename :=
                 "magma_care_customers_" +:+ toISOString now +:+ ".csv" |} ]
   end)
  ++
  (match transcript with
   | [] => []
   | _ => [ {| download_content := transcriptCsv transcript;
               download_filename :=
                 "magma_care_transcript_" +:+ toISOString now +:+ ".csv" |} ]
   end).

End Platform.

(** ** Derived notions used by the statements *)

(** The samples that come back when the blob of [createBlob] is decoded by
    [decode] and [decodeAudioData] (one channel). *)
Definition pcm16_roundtrip (samples : list number) : option (list Q) :=
  bytes ← decode (blob_data (createBlob samples));
  buffer ← decodeAudioData bytes 24000 1;
  head (channelData buffer).

(** An inbound message together with what the handler reads from the
    environment while it processes it. *)
Record Inbound : Type := mkInbound {
  inbound_message : LiveServerMessage;
  inbound_currentTime : Q;
  inbound_now : Date
}.

(** The buffer that the audio of a message decodes to, when it carries
    audio and the decoding succeeds. *)
Definition inbound_audio (message : LiveServerMessage) : option AudioBuffer :=
  if truthy (base64Audio_of message) then
    bytes ← decode (default EmptyString (base64Audio_of message));
    decodeAudioData bytes 24000 1
  else None.

(** The audio part of the handler does not throw on this message. *)
Definition audio_decodes (message : LiveServerMessage) : bool :=
  if truthy (base64Audio_of message)
  then bool_decide (is_Some (inbound_audio message))
  else true.

(** The sources started on the output context, oldest first. *)
Definition started (a : App) : list AudioBufferSourceNode :=
  match outputAudioContextRef (refs a) with
  | Some ctx => ctx_started ctx
  | None => []
  end.

(** The time at which a started source finishes. *)
Definition node_end (s : AudioBufferSourceNode) : Q :=
  (node_when s + duration (node_buffer s))%Q.

(** The value of a state variable that a render shows, when it runs at
    time [d] with the refs [r].  [render d a] shows
    [shown hook (refs a) d a]. *)
Definition shown {S} (hook : App -> Hook S) (r : Refs) (d : Date) (a : App) : S :=
  memoizedState (processQueue r d (hook a)).

(** The answer of the handler to one invocation. *)
Definition response_of (fc : FunctionCall) : FunctionResponse :=
  {| fr_id := fc_id fc; fr_name := fc_name fc;
     fr_result := if String.eqb (fc_name fc) "saveCustomerDetails"
                  then "Success: Customer details saved."
                  else "Unknown function" |}.

(** The sextets that [btoa] writes for the given bytes, padding apart. *)
Fixpoint base64_sextets (bytes : list byte) : list N :=
  match bytes with
  | [] => []
  | [a] =>
      let n := (Byte.to_N a * 65536)%N in
      [(n / 262144)%N; ((n / 4096) mod 64)%N]
  | [a; b] =>
      let n := (Byte.to_N a * 65536 + Byte.to_N b * 256)%N in
      [(n / 262144)%N; ((n / 4096) mod 64)%N; ((n / 64) mod 64)%N]
  | a :: b :: c :: rest =>
      let n := (Byte.to_N a * 65536 + Byte.to_N b * 256 + Byte.to_N c)%N in
      (n / 262144)%N :: ((n / 4096) mod 64)%N :: ((n / 64) mod 64)%N
      :: (n mod 64)%N :: base64_sextets rest
  end.

(** The padding that [btoa] may append. *)
Definition base64_pad (pad : list ascii) : Prop :=
  pad = [] \/ pad = ["="%char] \/ pad = ["="%char; "="%char].

(** The round trip reproduces every sample within [tolerance]. *)
Definition reproduces (tolerance : Q) (samples : list Q) : Prop :=
  exists decoded,
    pcm16_roundtrip (map Fin samples) = Some decoded /\
    Forall2 (fun q d => (Qabs (d - q) <= tolerance)%Q) samples decoded.

(** The delivery of an inbound message to [onmessage]; the store that
    results, whether the handler completed or threw. *)
Definition deliver (toLocaleString : Date -> string) (a : App) (e : Inbound)
  : App :=
  run (onmessage toLocaleString (inbound_message e) (inbound_currentTime e)
         (inbound_now e)) a.

(** Every started source finishes no later than the cursor. *)
Definition cursor_covers (a : App) : Prop :=
  Forall (fun s => (node_end s <= nextStartTimeRef (refs a))%Q) (started a).

(** Each source starts no earlier than the one started before it ends. *)
Definition no_overlap (l : list AudioBufferSourceNode) : Prop :=
  forall (i : nat) s1 s2,
    l !! i = Some s1 -> l !! S i = Some s2 -> (node_end s1 <= node_when s2)%Q.

(** Whether an invocation names the one registered function. *)
Definition is_save (fc : FunctionCall) : bool :=
  String.eqb (fc_name fc) "saveCustomerDetails".

(** A rendering of dates for the examples. *)
Definition sample_toLocaleString (d : Date) : string :=
  "11/2/2026, 11:44:00 AM".

(** What one invocation does to the store. *)
Definition save_step (toLocaleString : Date -> string) (now : Date) (a : App)
    (fc : FunctionCall) : App :=
  if is_save fc
  then setCustomerData (fun _ _ prev => prev ++ [newCustomer toLocaleString fc now])
         now a
  else a.

(** What the blocks of [onmessage] after the audio block leave alone. *)
Definition tail_frame (a a1 : App) : Prop :=
  inputAudioContextRef (refs a1) = inputAudioContextRef (refs a) /\
  outputAudioContextRef (refs a1) = outputAudioContextRef (refs a) /\
  nextStartTimeRef (refs a1) = nextStartTimeRef (refs a) /\
  sourcesRef (refs a1) = sourcesRef (refs a) /\
  streamRef (refs a1) = streamRef (refs a) /\
  sessionPromiseRef (refs a1) = sessionPromiseRef (refs a) /\
  connectionState a1 = connectionState a /\
  volumeLevel a1 = volumeLevel a /\
  isSpeaking a1 = isSpeaking a /\
  unhandledRejections a1 = unhandledRejections a /\
  nextNodeId a1 = nextNodeId a.

(** What the audio block of [onmessage] leaves alone. *)
Definition audio_frame (a a1 : App) : Prop :=
  connectionState a1 = connectionState a /\
  customerData a1 = customerData a /\
  transcripts a1 = transcripts a /\
  volumeLevel a1 = volumeLevel a /\
  session a1 = session a /\
  unhandledRejections a1 = unhandledRejections a /\
  currentInputTranscription (refs a1) = currentInputTranscription (refs a) /\
  currentOutputTranscription (refs a1) = currentOutputTranscription (refs a).

(** The store of a component that was just mounted. *)
Definition initialApp : App :=
  {| connectionState := mkHook DISCONNECTED [];
     customerData := mkHook [] [];
     transcripts := mkHook [] [];
     volumeLevel := mkHook 0%Q [];
     isSpeaking := mkHook false [];
     refs := {| inputAudioContextRef := None; outputAudioContextRef := None;
                nextStartTimeRef := 0; sourcesRef := ∅; streamRef := None;
                sessionPromiseRef := null;
                currentInputTranscription := EmptyString;
                currentOutputTranscription := EmptyString |};
     session := {| session_open := false; session_close_calls := 0;
                   toolResponses := [] |};
     unhandledRejections := [];
     nextNodeId := 0;
     alternateLanes := false |}.

(** The store once a call is established: [connectToGemini] with a key
    and a microphone of one track, the channel open, React rendered. *)
Definition connectedApp : App :=
  render 0 (onopen (connectToGemini true (Some [mkTrack true 0]) initialApp)).

(** Messages of the kinds the server sends. *)
Definition inputDelta (s : string) : LiveServerMessage :=
  {| serverContent :=
       Some {| modelTurn := None;
               inputTranscription := Some {| transcription_text := s |};
               outputTranscription := None; turnComplete := false |};
     toolCall := None |}.

Definition outputDelta (s : string) : LiveServerMessage :=
  {| serverContent :=
       Some {| modelTurn := None; inputTranscription := None;
               outputTranscription := Some {| transcription_text := s |};
               turnComplete := false |};
     toolCall := None |}.

Definition turnCompleteMessage : LiveServerMessage :=
  {| serverContent :=
       Some {| modelTurn := None; inputTranscription := None;
               outputTranscription := None; turnComplete := true |};
     toolCall := None |}.

Definition audioMessage (base64 : string) : LiveServerMessage :=
  {| serverContent :=
       Some {| modelTurn :=
                 Some {| parts :=
                   Some [ {| inlineData := Some {| data := Some base64 |} |} ] |};
               inputTranscription := None; outputTranscription := None;
               turnComplete := false |};
     toolCall := None |}.

Definition toolCallMessage (calls : list FunctionCall) : LiveServerMessage :=
  {| serverContent := None; toolCall := Some {| functionCalls := calls |} |}.

(** C7 as the claim words it: after each of two calls of [disconnect] the
    state shown is DISCONNECTED, every resource was released once over the
    two calls, and no release was refused. *)
Definition disconnect_releases_once (a : App) : Prop :=
  let a1 := disconnect a in
  let a2 := disconnect a1 in
  shown connectionState (refs a1) 0 a1 = DISCONNECTED /\
  shown connectionState (refs a2) 0 a2 = DISCONNECTED /\
  session_close_calls (session a2) = S (session_close_calls (session a)) /\
  ctx_close_calls <$> inputAudioContextRef (refs a2)
    = S <$> (ctx_close_calls <$> inputAudioContextRef (refs a)) /\
  ctx_close_calls <$> outputAudioContextRef (refs a2)
    = S <$> (ctx_close_calls <$> outputAudioContextRef (refs a)) /\
  map track_stop_calls <$> streamRef (refs a2)
    = map (fun t => S (track_stop_calls t)) <$> streamRef (refs a) /\
  unhandledRejections a2 = unhandledRejections a.

(** C8 as the claim words it: between the store [a0] in which the chunk
    arrives and the store [a1] it leaves, nothing was scheduled, the cursor
    did not move and the speaking flag, once rendered, is not set. *)
Definition silently_dropped (a0 a1 : App) : Prop :=
  started a1 = started a0 /\
  sourcesRef (refs a1) = sourcesRef (refs a0) /\
  nextStartTimeRef (refs a1) = nextStartTimeRef (refs a0) /\
  shown isSpeaking (refs a1) 0 a1 = false.

Definition sample_toISOString (d : Date) : string :=
  "2026-11-02T11:44:00.000Z".

(** Three frames of PCM16 audio (0, 32767, -32768), in base64. *)
Definition sample_chunk : string := "AAD/fwCA".

(** An invocation of the registered function with its five arguments, and
    an invocation of a function that is not registered. *)
Definition sample_save_call : FunctionCall :=
  {| fc_id := "call-1"; fc_name := "saveCustomerDetails";
     fc_args := list_to_map
       [("fullName", "Ann Lee"); ("phoneNumber", "555-0100");
        ("monthlyIncome", "4000"); ("age", "41");
        ("insuranceType", "Health")]%string |}.

Definition sample_unknown_call : FunctionCall :=
  {| fc_id := "call-2"; fc_name := "lookupPolicy"; fc_args := ∅ |}.

(** The text that a message adds to the transcription buffer of the user
    and to that of the model: the text of its delta, if it has one. *)
Definition input_delta (message : LiveServerMessage) : string :=
  match serverContent message ≫= inputTranscription with
  | Some t => transcription_text t
  | None => EmptyString
  end.

Definition output_delta (message : LiveServerMessage) : string :=
  match serverContent message ≫= outputTranscription with
  | Some t => transcription_text t
  | None => EmptyString
  end.

(** Whether a message signals the end of a turn. *)
Definition turn_completes (message : LiveServerMessage) : bool :=
  default false (turnComplete <$> serverContent message).

(** The number of double quotes of a string. *)
Fixpoint count_quotes (s : string) : nat :=
  match s with
  | EmptyString => 0
  | String c rest =>
      if Ascii.eqb c "034"%char then S (count_quotes rest) else count_quotes rest
  end.

(** A chunk whose single byte cannot be viewed as 16-bit samples, a
    saveCustomerDetails invocation without arguments, and the instants at
    which the examples deliver their messages. *)
Definition sample_bad_chunk : string := "AA==".

Definition sample_bare_save_call : FunctionCall :=
  {| fc_id := "call-3"; fc_name := "saveCustomerDetails"; fc_args := ∅ |}.

Definition sample_inbound (m : LiveServerMessage) (currentTime : Q) : Inbound :=
  {| inbound_message := m; inbound_currentTime := currentTime; inbound_now := 7 |}.

(** * Properties *)

(** ** The audio utilities on small inputs *)

Example decode_example :
  decode "AAD/fwCA" = Some [x00; x00; xff; x7f; x00; x80].
Proof. reflexivity. Qed.

Example encode_example :
  encode [x00; x00; xff; x7f; x00; x80] = "AAD/fwCA"%string.
Proof. reflexivity. Qed.

Example decodeAudioData_example :
  channelData <$> decodeAudioData [x00; x00; xff; x7f; x00; x80] 24000 1
  = Some [[0 # 32768; 32767 # 32768; -32768 # 32768]%Q].
Proof. reflexivity. Qed.

Example createBlob_example :
  createBlob [Fin 0; Fin 1; Fin (-1 # 1); PosInf; NaN]
  = {| blob_data := "AAD/fwCA/38AAA=="; blob_mimeType := "audio/pcm;rate=16000" |}.
Proof. reflexivity. Qed.

(** ** PCM16 encoding *)

Lemma wrap16_id z : -32768 <= z <= 32767 -> wrap16 z = z.
Proof.
  intros H. unfold wrap16.
  rewrite Z.mod_small by lia. lia.
Qed.

Lemma wrap16_range z : -32768 <= wrap16 z <= 32767.
Proof.
  unfold wrap16.
  pose proof (Z.mod_pos_bound (z + 32768) 65536 ltac:(lia)). lia.
Qed.

(** Truncation toward zero, on a non-negative and on a non-positive
    numerator. *)
Lemma quot_nonneg_bounds n d :
  0 <= n -> 0 < d -> d * (n ÷ d) <= n < d * (n ÷ d) + d.
Proof.
  intros Hn Hd.
  pose proof (Z.quot_rem' n d) as E.
  pose proof (Z.rem_bound_pos n d Hn Hd). lia.
Qed.

Lemma quot_nonpos_bounds n d :
  n <= 0 -> 0 < d -> n <= d * (n ÷ d) < n + d.
Proof.
  intros Hn Hd.
  pose proof (quot_nonneg_bounds (- n) d ltac:(lia) Hd) as H.
  rewrite Z.quot_opp_l in H by lia. lia.
Qed.

Lemma clamp_sample_Fin q :
  clamp_sample (Fin q) = Fin (Qmax (-1 # 1) (Qmin 1 q)).
Proof. reflexivity. Qed.

Lemma clamp_bounds q :
  (-1 # 1 <= Qmax (-1 # 1) (Qmin 1 q) <= 1)%Q.
Proof.
  split.
  - apply Q.le_max_l.
  - apply Q.max_lub; [discriminate | apply Q.le_min_l].
Qed.

Lemma clamp_id q :
  (-1 # 1 <= q <= 1)%Q -> (Qmax (-1 # 1) (Qmin 1 q) == q)%Q.
Proof.
  intros [H1 H2].
  rewrite (Q.min_r 1 q H2). apply Q.max_r. exact H1.
Qed.

Lemma Qle_bool_false_lt (q : Q) : Qle_bool 0 q = false -> (q < 0)%Q.
Proof.
  intros H. apply Qnot_le_lt. intros Hle.
  apply Qle_bool_iff in Hle. congruence.
Qed.

(** The value stored for a clamped sample [c]: no reduction modulo 2^16
    takes place, and the stored value is within the signed 16-bit range. *)
Lemma scaled_sample_nonneg (c : Q) :
  (0 <= c <= 1)%Q ->
  let m := Qtrunc (c * (32767 # 1)) in
  0 <= m <= 32767 /\
  (Zpos (Qden c) * m <= 32767 * Qnum c < Zpos (Qden c) * m + Zpos (Qden c)).
Proof.
  intros [H0 H1] m. subst m. unfold Qtrunc.
  destruct c as [n d]. unfold Qle in H0, H1. simpl in *.
  rewrite Pos.mul_1_r.
  pose proof (quot_nonneg_bounds (n * 32767) (Zpos d) ltac:(lia) ltac:(lia)).
  split; [nia | lia].
Qed.

Lemma scaled_sample_neg (c : Q) :
  (-1 # 1 <= c)%Q -> (c < 0)%Q ->
  let m := Qtrunc (c * (32768 # 1)) in
  -32768 <= m <= 0 /\
  (32768 * Qnum c <= Zpos (Qden c) * m < 32768 * Qnum c + Zpos (Qden c)).
Proof.
  intros H0 H1 m. subst m. unfold Qtrunc.
  destruct c as [n d]. unfold Qle in H0. unfold Qlt in H1. simpl in *.
  rewrite Pos.mul_1_r.
  pose proof (quot_nonpos_bounds (n * 32768) (Zpos d) ltac:(lia) ltac:(lia)).
  split; [nia | lia].
Qed.

Lemma createBlob_sample_Fin q :
  let c := Qmax (-1 # 1) (Qmin 1 q) in
  createBlob_sample (Fin q) =
    if Qle_bool 0 c then Qtrunc (c * (32767 # 1)) else Qtrunc (c * (32768 # 1)).
Proof.
  intros c. unfold createBlob_sample. rewrite clamp_sample_Fin. fold c.
  pose proof (clamp_bounds q) as [Hlo Hhi]. fold c in Hlo, Hhi.
  unfold number_ltb0. destruct (Qle_bool 0 c) eqn:E; simpl.
  - apply Qle_bool_iff in E.
    destruct (scaled_sample_nonneg c (conj E Hhi)) as [Hm _].
    apply wrap16_id. lia.
  - apply Qle_bool_false_lt in E.
    destruct (scaled_sample_neg c Hlo E) as [Hm _].
    apply wrap16_id. lia.
Qed.

Lemma createBlob_sample_range x : -32768 <= createBlob_sample x <= 32767.
Proof.
  destruct x as [q | | |]; try (vm_compute; split; discriminate).
  unfold createBlob_sample.
  destruct (number_ltb0 _); rewrite clamp_sample_Fin; simpl; apply wrap16_range.
Qed.

Lemma clamp_above q : (1 <= q)%Q -> Qmax (-1 # 1) (Qmin 1 q) = 1%Q.
Proof.
  intros H. unfold Qmin, GenericMinMax.gmin.
  destruct (1 ?= q)%Q eqn:E; try reflexivity.
  apply Qgt_alt in E. exfalso. apply (Qlt_not_le _ _ E H).
Qed.

Lemma clamp_below q : (q <= -1 # 1)%Q -> Qmax (-1 # 1) (Qmin 1 q) = (-1 # 1)%Q.
Proof.
  intros H. unfold Qmin, GenericMinMax.gmin.
  assert (Hlt : (q < 1)%Q) by (eapply Qle_lt_trans; [exact H | reflexivity]).
  destruct (1 ?= q)%Q eqn:E.
  - apply Qeq_alt in E. exfalso. rewrite <- E in Hlt. apply (Qlt_irrefl _ Hlt).
  - apply Qlt_alt in E. exfalso. apply (Qlt_not_le _ _ E). apply Qlt_le_weak, Hlt.
  - unfold Qmax, GenericMinMax.gmax.
    destruct (-1 # 1 ?= q)%Q eqn:E'; try reflexivity.
    apply Qlt_alt in E'. exfalso. apply (Qlt_not_le _ _ E' H).
Qed.

Lemma createBlob_int16_range (data : list number) :
  Forall (fun v => -32768 <= v <= 32767) (createBlob_int16 data).
Proof.
  apply Forall_forall. intros v Hv.
  apply list_elem_of_fmap in Hv as (x & -> & _).
  apply createBlob_sample_range.
Qed.

Lemma clamp_sample_finite (x : number) :
  x <> NaN -> exists c, clamp_sample x = Fin c /\ (-1 # 1 <= c <= 1)%Q.
Proof.
  intros Hx. destruct x as [q | | |]; [| | | contradiction].
  - exists (Qmax (-1 # 1) (Qmin 1 q)). split; [reflexivity | apply clamp_bounds].
  - exists 1%Q. split; [reflexivity | split; discriminate].
  - exists (-1 # 1)%Q. split; [reflexivity | split; discriminate].
Qed.

Lemma createBlob_sample_scaled (x : number) (c : Q) :
  clamp_sample x = Fin c -> (-1 # 1 <= c <= 1)%Q ->
  createBlob_sample x =
    if Qle_bool 0 c then Qtrunc (c * (32767 # 1)) else Qtrunc (c * (32768 # 1)).
Proof.
  intros Hc [Hlo Hhi]. unfold createBlob_sample. rewrite Hc.
  unfold number_ltb0. destruct (Qle_bool 0 c) eqn:E; simpl.
  - apply Qle_bool_iff in E.
    destruct (scaled_sample_nonneg c (conj E Hhi)) as [Hm _].
    apply wrap16_id. lia.
  - apply Qle_bool_false_lt in E.
    destruct (scaled_sample_neg c Hlo E) as [Hm _].
    apply wrap16_id. lia.
Qed.

(** C10. Whatever the samples given to [createBlob] (finite inside or
    outside [-1, 1], infinite, NaN), every value of the [Int16Array] it
    fills lies in [-32768, 32767].  Every sample but NaN is first clamped
    to a value [c] in [-1, 1]; the value stored is [c * 32768] truncated
    when [c] is negative and [c * 32767] truncated otherwise, no reduction
    modulo 2^16 occurring.  Samples at or beyond the bounds are stored as
    the bounds: -1.0 as -32768 and 1.0 as 32767.  (NaN passes the clamp as
    it is and is stored as 0.) *)
Theorem createBlob_clamps_into_int16 (data : list number) :
  length (createBlob_int16 data) = length data /\
  Forall (fun v => -32768 <= v <= 32767) (createBlob_int16 data) /\
  (forall (i : nat) (x : number),
      data !! i = Some x ->
      x <> NaN ->
      exists c : Q,
        clamp_sample x = Fin c /\
        (-1 # 1 <= c <= 1)%Q /\
        createBlob_int16 data !! i =
          Some (if Qle_bool 0 c
                then Qtrunc (c * (32767 # 1))
                else Qtrunc (c * (32768 # 1)))) /\
  (forall q, clamp_sample (Fin q) = Fin (Qmax (-1 # 1) (Qmin 1 q))) /\
  (forall q, (1 <= q)%Q -> createBlob_sample (Fin q) = 32767) /\
  (forall q, (q <= -1 # 1)%Q -> createBlob_sample (Fin q) = -32768) /\
  createBlob_int16 [Fin (-1 # 1); Fin 1; PosInf; NegInf; NaN]
    = [-32768; 32767; 32767; -32768; 0].
Proof.
  unfold createBlob_int16. split; [apply length_map |].
  split; [apply createBlob_int16_range |].
  split; [| split; [reflexivity | split; [| split; [| reflexivity]]]].
  - intros i x Hi Hx.
    destruct (clamp_sample_finite x Hx) as (c & Hc & Hb).
    exists c. split; [exact Hc |]. split; [exact Hb |].
    rewrite list_lookup_fmap, Hi. simpl. f_equal.
    apply (createBlob_sample_scaled x c Hc Hb).
  - intros q Hq. rewrite createBlob_sample_Fin, (clamp_above q Hq). reflexivity.
  - intros q Hq. rewrite createBlob_sample_Fin, (clamp_below q Hq). reflexivity.
Qed.

(** ** Bytes of the 16-bit samples *)

Lemma Z_of_byte_of_Z z : Z_of_byte (byte_of_Z z) = z mod 256.
Proof.
  unfold Z_of_byte, byte_of_Z.
  pose proof (Z.mod_pos_bound z 256 ltac:(lia)) as Hb.
  destruct (Byte.of_N (Z.to_N (z mod 256))) as [b|] eqn:E.
  - apply Byte.to_of_N in E. rewrite E. lia.
  - apply Byte.of_N_None_iff in E. lia.
Qed.

Lemma byte_of_Z_of_byte b : byte_of_Z (Z_of_byte b) = b.
Proof.
  unfold Z_of_byte, byte_of_Z.
  pose proof (Byte.to_N_bounded b) as Hb.
  rewrite Z.mod_small by lia.
  rewrite N2Z.id, Byte.of_to_N. reflexivity.
Qed.

Lemma Int16Array_bytes_roundtrip (l : list Z) :
  Forall (fun v => -32768 <= v <= 32767) l ->
  Int16Array_of_buffer (Uint8Array_of_Int16Array l) = Some l.
Proof.
  induction 1 as [| v l Hv _ IH]; [reflexivity |].
  cbn [Uint8Array_of_Int16Array flat_map app Int16Array_of_buffer].
  fold (Uint8Array_of_Int16Array l). rewrite IH.
  rewrite !Z_of_byte_of_Z.
  f_equal. f_equal.
  destruct (_ <? 32768) eqn:E; [apply Z.ltb_lt in E | apply Z.ltb_ge in E];
    revert E; Z.to_euclidean_division_equations; lia.
Qed.

(** ** base64 transport: [decode] inverts [encode] *)

Lemma list_ind3 {A} (P : list A -> Prop) :
  P [] -> (forall a, P [a]) -> (forall a b, P [a; b]) ->
  (forall a b c r, P r -> P (a :: b :: c :: r)) ->
  forall l, P l.
Proof.
  intros H0 H1 H2 H3. fix IH 1.
  intros [| a [| b [| c r]]];
    [apply H0 | apply H1 | apply H2 | apply H3, IH].
Qed.

Lemma base64_alphabet_table :
  forallb (fun k =>
    let n := N.of_nat k in
    match base64_index (base64_char n) with
    | Some m => (m =? n)%N
    | None => false
    end
    && negb (is_ascii_whitespace (base64_char n))
    && negb (Ascii.eqb (base64_char n) "="%char)) (seq 0 64) = true.
Proof. vm_compute. reflexivity. Qed.

Lemma base64_char_spec (n : N) :
  (n < 64)%N ->
  base64_index (base64_char n) = Some n /\
  is_ascii_whitespace (base64_char n) = false /\
  Ascii.eqb (base64_char n) "="%char = false.
Proof.
  intros Hn.
  pose proof base64_alphabet_table as T.
  rewrite forallb_forall in T.
  specialize (T (N.to_nat n)).
  rewrite N2Nat.id in T.
  assert (Hin : In (N.to_nat n) (seq 0 64)) by (apply in_seq; lia).
  specialize (T Hin). cbv zeta in T.
  apply andb_prop in T as [T T3]. apply andb_prop in T as [T1 T2].
  destruct (base64_index (base64_char n)) as [m|]; [| discriminate].
  apply N.eqb_eq in T1. subst m.
  apply negb_true_iff in T2, T3. auto.
Qed.

Local Ltac div_lia :=
  zify; Z.to_euclidean_division_equations; lia.

Lemma base64_sextets_bound bytes : Forall (fun n => (n < 64)%N) (base64_sextets bytes).
Proof.
  induction bytes as [| a | a b | a b c r IH] using list_ind3;
    cbn [base64_sextets]; repeat constructor; try assumption;
    try (apply N.mod_upper_bound; discriminate).
  all: pose proof (Byte.to_N_bounded a);
       try pose proof (Byte.to_N_bounded b);
       try pose proof (Byte.to_N_bounded c);
       apply N.Div0.div_lt_upper_bound; lia.
Qed.

Lemma byte_of_N_eq n b : n = Byte.to_N b -> byte_of_N n = b.
Proof. intros ->. apply byte_of_Z_of_byte. Qed.

Lemma atob_sextets_base64 bytes : atob_sextets (base64_sextets bytes) = bytes.
Proof.
  induction bytes as [| a | a b | a b c r IH] using list_ind3;
    cbn [base64_sextets atob_sextets]; [reflexivity | | |].
  all: pose proof (Byte.to_N_bounded a);
       try pose proof (Byte.to_N_bounded b);
       try pose proof (Byte.to_N_bounded c);
       try rewrite IH;
       repeat match goal with |- _ :: _ = _ :: _ => f_equal end;
       apply byte_of_N_eq; div_lia.
Qed.

Lemma btoa_shape bytes :
  exists pad,
    btoa bytes = map base64_char (base64_sextets bytes) ++ pad /\
    base64_pad pad /\
    (length (btoa bytes) mod 4 = 0)%nat /\
    (length (base64_sextets bytes) mod 4 <> 1)%nat.
Proof.
  unfold base64_pad.
  induction bytes as [| a | a b | a b c r IH] using list_ind3.
  - exists []. repeat split; auto; discriminate.
  - exists ["="%char; "="%char]. repeat split; auto; discriminate.
  - exists ["="%char]. repeat split; auto; discriminate.
  - destruct IH as (pad & E & Hpad & L1 & L2). exists pad.
    cbn [btoa base64_sextets map app length]. rewrite E.
    repeat split; [assumption | |].
    + rewrite <- E. revert L1. generalize (length (btoa r)). intros n Hn.
      replace (S (S (S (S n)))) with (n + 1 * 4)%nat by lia.
      rewrite Nat.Div0.mod_add. exact Hn.
    + revert L2. generalize (length (base64_sextets r)). intros n Hn.
      replace (S (S (S (S n)))) with (n + 1 * 4)%nat by lia.
      rewrite Nat.Div0.mod_add. exact Hn.
Qed.

Lemma base64_chars_not_whitespace ss pad :
  Forall (fun n => (n < 64)%N) ss -> base64_pad pad ->
  filter (fun c => is_ascii_whitespace c = false) (map base64_char ss ++ pad)
  = map base64_char ss ++ pad.
Proof.
  intros Hss Hpad. rewrite filter_app. f_equal.
  - induction Hss as [| n ss Hn _ IH]; [reflexivity |].
    cbn [map]. rewrite filter_cons_True by apply (base64_char_spec n Hn).
    f_equal. exact IH.
  - destruct Hpad as [-> | [-> | ->]]; reflexivity.
Qed.

Lemma base64_chars_not_padding ss c :
  Forall (fun n => (n < 64)%N) ss ->
  c ∈ reverse (map base64_char ss) -> Ascii.eqb c "="%char = false.
Proof.
  intros Hss Hc. rewrite elem_of_reverse in Hc.
  apply list_elem_of_fmap in Hc as (n & -> & Hn).
  rewrite Forall_forall in Hss. apply (base64_char_spec n (Hss n Hn)).
Qed.

Lemma strip_padding_base64 ss pad :
  Forall (fun n => (n < 64)%N) ss -> base64_pad pad ->
  (length (map base64_char ss ++ pad) mod 4 = 0)%nat ->
  strip_padding (map base64_char ss ++ pad) = map base64_char ss.
Proof.
  intros Hss Hpad Hlen. unfold strip_padding. rewrite Hlen. cbn [Nat.eqb].
  rewrite reverse_app.
  pose proof (base64_chars_not_padding ss) as Hnp.
  specialize (fun c => Hnp c Hss).
  destruct Hpad as [-> | [-> | ->]].
  - rewrite app_nil_r. change (reverse []) with (@nil ascii). cbn [app].
    destruct (reverse (map base64_char ss)) as [| c1 r1] eqn:E; [reflexivity |].
    rewrite (Hnp c1) by left. reflexivity.
  - change (reverse ["="%char]) with ["="%char]. cbn [app].
    change (Ascii.eqb "="%char "="%char) with true. cbv iota.
    destruct (reverse (map base64_char ss)) as [| c2 r2] eqn:E.
    + rewrite <- (reverse_involutive (map base64_char ss)), E. reflexivity.
    + rewrite (Hnp c2) by left.
      rewrite <- E. apply reverse_involutive.
  - change (reverse ["="%char; "="%char]) with ["="%char; "="%char]. cbn [app].
    change (Ascii.eqb "="%char "="%char) with true. cbv iota.
    apply reverse_involutive.
Qed.

Lemma base64_index_chars ss :
  Forall (fun n => (n < 64)%N) ss ->
  mapM base64_index (map base64_char ss) = Some ss.
Proof.
  intros Hss. apply mapM_Some.
  induction Hss as [| n ss Hn _ IH]; constructor; [| exact IH].
  apply (base64_char_spec n Hn).
Qed.

(** The base64 transport is lossless: [decode] gives back the bytes that
    [encode] was given. *)
Lemma decode_encode bytes : decode (encode bytes) = Some bytes.
Proof.
  unfold decode, encode, atob.
  rewrite list_ascii_of_string_of_list_ascii.
  destruct (btoa_shape bytes) as (pad & E & Hpad & L1 & L2).
  pose proof (base64_sextets_bound bytes) as Hss.
  rewrite E in *.
  rewrite (base64_chars_not_whitespace _ _ Hss Hpad).
  rewrite (strip_padding_base64 _ _ Hss Hpad L1).
  rewrite length_map.
  destruct (Nat.eqb_spec (length (base64_sextets bytes) mod 4) 1) as [C | _];
    [contradiction |].
  rewrite (base64_index_chars _ Hss).
  f_equal. apply atob_sextets_base64.
Qed.

(** ** PCM16 decoding and the round trip *)

Lemma decode_channel_mono (l : list Z) :
  decode_channel l 1 (length l) 0 = map (fun v => v # 32768) l.
Proof.
  unfold decode_channel. apply list_eq. intros i.
  rewrite !list_lookup_fmap.
  destruct (decide (i < length l)%nat) as [Hi | Hi].
  - rewrite lookup_seq_lt by exact Hi. cbn [fmap option_fmap option_map].
    rewrite Nat.mul_1_r, Nat.add_0_r, Nat.add_0_l.
    destruct (lookup_lt_is_Some_2 l i Hi) as [v ->]. reflexivity.
  - rewrite lookup_seq_ge by lia.
    rewrite (lookup_ge_None_2 l i) by lia. reflexivity.
Qed.

Lemma decodeAudioData_int16 (l : list Z) (rate : positive) :
  l <> [] ->
  Forall (fun v => -32768 <= v <= 32767) l ->
  decodeAudioData (Uint8Array_of_Int16Array l) rate 1
  = Some {| numberOfChannels := 1; buffer_length := length l;
            sampleRate := rate;
            channelData := [map (fun v => v # 32768) l] |}.
Proof.
  intros Hne Hl. unfold decodeAudioData.
  rewrite (Int16Array_bytes_roundtrip l Hl).
  rewrite Nat.div_1_r.
  change (seq 0 1) with [0%nat]. cbn [map].
  rewrite decode_channel_mono.
  destruct l as [| v l']; [contradiction | reflexivity].
Qed.

Lemma pcm16_roundtrip_eq (samples : list number) :
  samples <> [] ->
  pcm16_roundtrip samples
  = Some (map (fun x => createBlob_sample x # 32768) samples).
Proof.
  intros Hne. unfold pcm16_roundtrip, createBlob. cbn [blob_data].
  rewrite decode_encode. cbn [mbind option_bind].
  rewrite decodeAudioData_int16.
  - cbn [mbind option_bind channelData head]. unfold createBlob_int16.
    rewrite map_map. reflexivity.
  - unfold createBlob_int16. destruct samples; [contradiction | discriminate].
  - apply createBlob_int16_range.
Qed.

Lemma sample_error_nonneg (c : Q) :
  (0 <= c <= 1)%Q ->
  let d := (Qtrunc (c * (32767 # 1)) # 32768)%Q in
  (0 <= c - d)%Q /\ (c - d < (c + 1) * (1 # 32768))%Q.
Proof.
  intros Hc d. subst d.
  destruct (scaled_sample_nonneg c Hc) as [Hm Hq].
  destruct Hc as [H0 H1]. revert Hm Hq.
  generalize (Qtrunc (c * (32767 # 1))). intros m Hm Hq.
  destruct c as [n dd]. unfold Qle in H0, H1.
  unfold Qle, Qlt, Qminus, Qplus, Qmult, Qopp.
  simpl in *. split; nia.
Qed.

Lemma sample_error_neg (c : Q) :
  (-1 # 1 <= c)%Q -> (c < 0)%Q ->
  let d := (Qtrunc (c * (32768 # 1)) # 32768)%Q in
  (0 <= d - c)%Q /\ (d - c < 1 # 32768)%Q.
Proof.
  intros H0 H1 d. subst d.
  destruct (scaled_sample_neg c H0 H1) as [Hm Hq]. revert Hm Hq.
  generalize (Qtrunc (c * (32768 # 1))). intros m Hm Hq.
  destruct c as [n dd]. unfold Qle in H0. unfold Qlt in H1.
  unfold Qle, Qlt, Qminus, Qplus, Qopp.
  simpl in *. split; nia.
Qed.

(** The error of one sample of the round trip: none above the original,
    less than one step below zero, less than two steps from zero up. *)
Lemma sample_roundtrip_error (q : Q) :
  (-1 # 1 <= q <= 1)%Q ->
  let d := (createBlob_sample (Fin q) # 32768)%Q in
  (Qabs (d - q) < 2 # 32768)%Q /\
  ((q <= 0)%Q -> (Qabs (d - q) < 1 # 32768)%Q).
Proof.
  intros Hq d. subst d. rewrite createBlob_sample_Fin.
  pose proof (clamp_id q Hq) as Hc.
  pose proof (clamp_bounds q) as [Hlo Hhi].
  revert Hc Hlo Hhi. generalize (Qmax (-1 # 1) (Qmin 1 q)). intros c Hc Hlo Hhi.
  destruct (Qle_bool 0 c) eqn:E.
  - apply Qle_bool_iff in E.
    destruct (sample_error_nonneg c (conj E Hhi)) as [E1 E2].
    revert E1 E2. generalize (Qtrunc (c * (32767 # 1)) # 32768)%Q. intros d E1 E2.
    split.
    + apply Qabs_Qlt_condition. split; lra.
    + intros Hq0. apply Qabs_Qlt_condition. split; lra.
  - apply Qle_bool_false_lt in E.
    destruct (sample_error_neg c Hlo E) as [E1 E2].
    revert E1 E2. generalize (Qtrunc (c * (32768 # 1)) # 32768)%Q. intros d E1 E2.
    split; [| intros _]; apply Qabs_Qlt_condition; split; lra.
Qed.

(** C4, as stated, fails.  The sample 1 - 2^-17 (a [Float32Array] value,
    inside [-1, 1]) is encoded as 32766, since 32767 * (1 - 2^-17) is
    truncated, and decoded as 32766 / 32768: the error, 7 / 131072, is more
    than one step 1 / 32768 = 4 / 131072. *)
Lemma pcm16_roundtrip_exceeds_one_step :
  (-1 # 1 <= 131071 # 131072 <= 1)%Q /\
  pcm16_roundtrip [Fin (131071 # 131072)] = Some [32766 # 32768]%Q /\
  ~ reproduces (1 # 32768) [131071 # 131072]%Q.
Proof.
  split; [split; discriminate |].
  split; [rewrite pcm16_roundtrip_eq by discriminate; reflexivity |].
  intros (decoded & E & H).
  cbn [map] in E. rewrite pcm16_roundtrip_eq in E by discriminate.
  injection E as <-.
  apply Forall2_cons_1 in H as [H _].
  vm_compute in H. apply H. reflexivity.
Qed.

(** C4, amended.  For every non-empty sequence of samples in [-1, 1],
    encoding with [createBlob] and decoding the blob with [decode] and
    [decodeAudioData] gives back as many samples, each within two steps of
    the original ([|decoded - original| < 2/32768]), and within one step
    ([< 1/32768]) when the original is not positive. *)
Theorem pcm16_roundtrip_within_two_steps (samples : list Q) :
  samples <> [] ->
  Forall (fun q => (-1 # 1 <= q <= 1)%Q) samples ->
  exists decoded,
    pcm16_roundtrip (map Fin samples) = Some decoded /\
    Forall2 (fun q d =>
               (Qabs (d - q) < 2 # 32768)%Q /\
               ((q <= 0)%Q -> (Qabs (d - q) < 1 # 32768)%Q))
            samples decoded.
Proof.
  intros Hne Hall.
  exists (map (fun q => createBlob_sample (Fin q) # 32768)%Q samples). split.
  - rewrite pcm16_roundtrip_eq by (destruct samples; [contradiction | discriminate]).
    rewrite map_map. reflexivity.
  - clear Hne. induction Hall as [| q l Hq _ IH]; constructor; [| exact IH].
    apply (sample_roundtrip_error q Hq).
Qed.

Lemma pcm16_roundtrip_within_two_steps_witness :
  exists decoded,
    pcm16_roundtrip (map Fin [1 # 2; -1 # 4; 131071 # 131072]%Q) = Some decoded /\
    Forall2 (fun q d =>
               (Qabs (d - q) < 2 # 32768)%Q /\
               ((q <= 0)%Q -> (Qabs (d - q) < 1 # 32768)%Q))
            [1 # 2; -1 # 4; 131071 # 131072]%Q decoded.
Proof.
  apply (pcm16_roundtrip_within_two_steps [1 # 2; -1 # 4; 131071 # 131072]%Q).
  - discriminate.
  - repeat constructor; discriminate.
Defined.

(** ** React state: what a render yields after a setter *)

Lemma lanes_false_idle (a : App) :
  lanes a = false ->
  queue (connectionState a) = [] /\ queue (customerData a) = [] /\
  queue (transcripts a) = [] /\ queue (volumeLevel a) = [] /\
  queue (isSpeaking a) = [].
Proof.
  unfold lanes, scheduled, idle. intros H.
  apply orb_false_elim in H as [H _]. apply negb_false_iff in H.
  repeat (apply andb_prop in H as [H ?]).
  repeat split;
    match goal with |- queue ?h = [] => destruct (queue h); [reflexivity | discriminate] end.
Qed.

Section Hooks.
Context {S : Type}.
Implicit Types (h : Hook S) (r : Refs) (d : Date).

Lemma processQueue_snoc r d h (u : Update S) :
  memoizedState (processQueue r d (mkHook (memoizedState h) (queue h ++ [u])))
  = match eagerState u with
    | Some e => e
    | None => action u r d (memoizedState (processQueue r d h))
    end.
Proof.
  unfold processQueue. cbn [memoizedState queue].
  rewrite fold_left_app. reflexivity.
Qed.

(** A setter called with a value [v]: the next render shows a value that
    [same] identifies with [v]. *)
Lemma render_after_set_value (same : S -> S -> bool) (R : S -> S -> Prop)
    (v : S) (pending : bool) r0 n h r d :
  (forall x, R x x) ->
  (forall x y, same x y = true -> R x y) ->
  (pending = false -> queue h = []) ->
  R v (memoizedState
         (processQueue r d (dispatchSetState same (fun _ _ _ => v) pending r0 n h))).
Proof.
  intros Hrefl Hsame Hidle. unfold dispatchSetState.
  destruct pending.
  - rewrite processQueue_snoc. apply Hrefl.
  - destruct (same v (memoizedState h)) eqn:E.
    + unfold processQueue. rewrite (Hidle eq_refl). cbn. apply Hsame, E.
    + rewrite processQueue_snoc. apply Hrefl.
Qed.
End Hooks.

(** A setter called with a function that appends [c]: the next render
    shows [c] appended to what it would have shown. *)
Lemma render_after_append {A} (c : A) (pending : bool) r0 n
    (h : Hook (list A)) r d :
  (pending = false -> queue h = []) ->
  memoizedState
    (processQueue r d
       (dispatchSetState fresh_array (fun _ _ prev => prev ++ [c]) pending r0 n h))
  = memoizedState (processQueue r d h) ++ [c].
Proof.
  intros Hidle. unfold dispatchSetState, fresh_array.
  destruct pending.
  - rewrite processQueue_snoc. reflexivity.
  - rewrite processQueue_snoc. cbn [eagerState].
    unfold processQueue. rewrite (Hidle eq_refl). reflexivity.
Qed.

(** What a render shows is what it leaves as the value of the state
    variable. *)
Lemma render_shows (d : Date) (a : App) :
  memoizedState (connectionState (render d a)) = shown connectionState (refs a) d a /\
  memoizedState (customerData (render d a)) = shown customerData (refs a) d a /\
  memoizedState (transcripts (render d a)) = shown transcripts (refs a) d a /\
  memoizedState (volumeLevel (render d a)) = shown volumeLevel (refs a) d a /\
  memoizedState (isSpeaking (render d a)) = shown isSpeaking (refs a) d a /\
  scheduled (render d a) = false /\
  refs (render d a) = refs a.
Proof. repeat split. Qed.

(** [connectToGemini] starts every call with an empty schedule. *)
Lemma connectToGemini_schedule (stream : option (list MediaStreamTrack)) (a : App) :
  cursor_covers (connectToGemini true stream a) /\
  no_overlap (started (connectToGemini true stream a)) /\
  nextStartTimeRef (refs (connectToGemini true stream a)) = 0%Q.
Proof.
  unfold cursor_covers, no_overlap, started.
  destruct stream; cbn; repeat split; try constructor;
    intros i s1 s2 H; discriminate H.
Qed.

(** ** The blocks of [onmessage] *)

Section SessionProperties.

Variable toLocaleString : Date -> string.

Local Ltac unfold_handler :=
  cbv [mbind mret Handler_bind Handler_ret modify gets await].

Lemma tail_frame_refl a : tail_frame a a.
Proof. repeat split. Qed.

Lemma tail_frame_trans a b c : tail_frame a b -> tail_frame b c -> tail_frame a c.
Proof.
  unfold tail_frame. intros H1 H2.
  repeat match goal with H : _ /\ _ |- _ => destruct H end.
  repeat split; congruence.
Qed.

Lemma handleTranscriptions_spec message a :
  exists a1, handleTranscriptions message a = (Done tt, a1) /\
             tail_frame a a1 /\
             customerData a1 = customerData a /\
             transcripts a1 = transcripts a /\
             session a1 = session a.
Proof.
  unfold handleTranscriptions.
  destruct (serverContent message ≫= inputTranscription);
    destruct (serverContent message ≫= outputTranscription);
    unfold_handler; eexists; (split; [reflexivity |]); repeat split.
Qed.

Lemma handleTurnComplete_spec message now a :
  exists a1, handleTurnComplete message now a = (Done tt, a1) /\
             tail_frame a a1 /\
             customerData a1 = customerData a /\
             session a1 = session a.
Proof.
  unfold handleTurnComplete.
  destruct (default false (turnComplete <$> serverContent message));
    unfold_handler; [| eexists; (split; [reflexivity |]); repeat split].
  destruct (nonempty (currentInputTranscription (refs a)));
    cbn [refs with_refs setTranscripts];
    match goal with
    | |- context [if nonempty ?s then _ else _] => destruct (nonempty s)
    end;
    eexists; (split; [reflexivity |]); repeat split.
Qed.

Lemma mapM_handleFunctionCall now calls a :
  mapM (handleFunctionCall toLocaleString now) calls a
  = (Done (map response_of calls), fold_left (save_step toLocaleString now) calls a).
Proof.
  revert a. induction calls as [| fc calls IH]; intros a; [reflexivity |].
  cbn [mapM fold_left map]. unfold mbind at 1. unfold Handler_bind at 1.
  unfold handleFunctionCall at 1, save_step at 2, response_of at 1, is_save.
  destruct (String.eqb (fc_name fc) "saveCustomerDetails"); unfold_handler;
    fold (mapM (handleFunctionCall toLocaleString now));
    rewrite IH; reflexivity.
Qed.

Lemma save_steps_frame now calls a :
  let a1 := fold_left (save_step toLocaleString now) calls a in
  tail_frame a a1 /\ transcripts a1 = transcripts a /\ session a1 = session a /\
  refs a1 = refs a.
Proof.
  revert a. induction calls as [| fc calls IH]; intros a; cbn [fold_left].
  - repeat split.
  - destruct (IH (save_step toLocaleString now a fc)) as (F & T & Se & R).
    assert (tail_frame a (save_step toLocaleString now a fc) /\
            transcripts (save_step toLocaleString now a fc) = transcripts a /\
            session (save_step toLocaleString now a fc) = session a /\
            refs (save_step toLocaleString now a fc) = refs a) as (F0 & T0 & Se0 & R0)
      by (unfold save_step; destruct (is_save fc); repeat split).
    split; [exact (tail_frame_trans _ _ _ F0 F) |].
    repeat split; congruence.
Qed.

(** The records that a render shows after the invocations of a batch:
    those it showed before, then one per invocation of the registered
    function, in the order of the batch. *)
Lemma save_steps_customerData now calls a r d :
  memoizedState
    (processQueue r d (customerData (fold_left (save_step toLocaleString now) calls a)))
  = memoizedState (processQueue r d (customerData a))
    ++ map (fun fc => newCustomer toLocaleString fc now) (filter is_save calls).
Proof.
  revert a. induction calls as [| fc calls IH]; intros a; cbn [fold_left].
  - rewrite filter_nil. cbn [map]. rewrite app_nil_r. reflexivity.
  - rewrite IH. rewrite filter_cons. unfold save_step.
    destruct (decide (is_save fc)) as [Hs | Hs].
    + apply Is_true_true in Hs. rewrite Hs. cbn [map].
      cbn [customerData setCustomerData].
      rewrite render_after_append; [rewrite <- app_assoc; reflexivity |].
      intros Hl. apply (lanes_false_idle a Hl).
    + apply Is_true_false in Hs. rewrite Hs. reflexivity.
Qed.

Lemma handleToolCall_eq message now a :
  handleToolCall toLocaleString message now a
  = (Done tt,
     match toolCall message with
     | Some tc =>
         with_session (sendToolResponse (map response_of (functionCalls tc)))
           (fold_left (save_step toLocaleString now) (functionCalls tc) a)
     | None => a
     end).
Proof.
  unfold handleToolCall. destruct (toolCall message) as [tc |]; [| reflexivity].
  unfold mbind, Handler_bind. rewrite mapM_handleFunctionCall. reflexivity.
Qed.

(** The three blocks after the audio block always complete; they leave
    the playback state alone, hand one batch of responses to the session
    when the message carries a tool call, and queue one record per
    invocation of the registered function. *)
Lemma tail_spec message now a :
  exists a2,
    (handleTranscriptions message ;;
     handleTurnComplete message now ;;
     handleToolCall toLocaleString message now) a = (Done tt, a2) /\
    tail_frame a a2 /\
    session a2 =
      match toolCall message with
      | Some tc => sendToolResponse (map response_of (functionCalls tc)) (session a)
      | None => session a
      end /\
    forall r d,
      memoizedState (processQueue r d (customerData a2))
      = memoizedState (processQueue r d (customerData a))
        ++ match toolCall message with
           | Some tc => map (fun fc => newCustomer toLocaleString fc now)
                            (filter is_save (functionCalls tc))
           | None => []
           end.
Proof.
  destruct (handleTranscriptions_spec message a) as (a1 & E1 & F1 & C1 & _ & S1).
  destruct (handleTurnComplete_spec message now a1) as (a2 & E2 & F2 & C2 & S2).
  unfold mbind, Handler_bind. rewrite E1, E2, handleToolCall_eq.
  eexists. split; [reflexivity |].
  pose proof (tail_frame_trans _ _ _ F1 F2) as F12.
  destruct (toolCall message) as [tc |].
  - destruct (save_steps_frame now (functionCalls tc) a2) as (F3 & _ & S3 & _).
    split; [| split].
    + eapply tail_frame_trans; [exact F12 |].
      destruct F3 as (? & ? & ? & ? & ? & ? & ? & ? & ? & ? & ?).
      repeat split; assumption.
    + cbn [session with_session]. congruence.
    + intros r d. cbn [customerData with_session].
      rewrite save_steps_customerData. congruence.
  - split; [exact F12 |]. split; [congruence |].
    intros r d. rewrite app_nil_r. congruence.
Qed.

(** The audio block, case by case. *)
Lemma handleAudio_eq message currentTime a :
  handleAudio message currentTime a
  = if truthy (base64Audio_of message) then
      let a0 := setIsSpeaking true a in
      match outputAudioContextRef (refs a) with
      | Some _ =>
          let a1 := with_refs (fun r =>
                      set_nextStartTimeRef
                        (Qmax (nextStartTimeRef r) currentTime) r) a0 in
          match inbound_audio message with
          | Some audioBuffer => (Done tt, scheduleSource audioBuffer a1)
          | None => (Thrown, a1)
          end
      | None => (Done tt, a0)
      end
    else (Done tt, a).
Proof.
  unfold handleAudio, inbound_audio.
  destruct (truthy (base64Audio_of message)); [| reflexivity].
  unfold mbind at 1 2, Handler_bind, modify, gets. cbn [refs setIsSpeaking].
  destruct (outputAudioContextRef (refs a)); [| reflexivity].
  unfold mbind at 1 2, Handler_bind, modify, await.
  destruct (decode (default EmptyString (base64Audio_of message)) ≫= _);
    reflexivity.
Qed.

Lemma handleAudio_frame message currentTime a :
  audio_frame a (snd (handleAudio message currentTime a)).
Proof.
  rewrite handleAudio_eq.
  destruct (truthy _); [| repeat split].
  destruct (outputAudioContextRef (refs a)); [| repeat split].
  cbv zeta. destruct (inbound_audio message); repeat split.
Qed.

Lemma handleAudio_completes message currentTime a :
  audio_decodes message = true ->
  fst (handleAudio message currentTime a) = Done tt.
Proof.
  unfold audio_decodes. rewrite handleAudio_eq.
  destruct (truthy _); [| reflexivity].
  intros H. apply bool_decide_eq_true in H as [buf E]. rewrite E.
  destruct (outputAudioContextRef (refs a)); reflexivity.
Qed.

Lemma onmessage_eq message currentTime now a :
  onmessage toLocaleString message currentTime now a
  = match handleAudio message currentTime a with
    | (Done _, a1) =>
        (handleTranscriptions message ;;
         handleTurnComplete message now ;;
         handleToolCall toLocaleString message now) a1
    | (Thrown, a1) => (Thrown, a1)
    end.
Proof. reflexivity. Qed.

(** ** Tool calls *)

Lemma filter_is_save_none (calls : list FunctionCall) :
  Forall (fun fc => fc_name fc <> "saveCustomerDetails"%string) calls ->
  filter is_save calls = [].
Proof.
  induction 1 as [| fc l Hfc _ IH]; [reflexivity |].
  rewrite filter_cons_False; [exact IH |].
  unfold is_save. apply String.eqb_neq in Hfc. rewrite Hfc. exact id.
Qed.

(** C3. For every inbound batch of tool invocations (a message with a
    tool call whose audio part, if it has one, decodes), the handler
    completes and hands the session exactly one batch of results: it has
    one result per invocation, the result at each position carries the
    id and the name of the invocation at that position, so the results
    are in the order of the batch. *)
Theorem tool_results_match_invocations (a : App) (message : LiveServerMessage)
    (calls : list FunctionCall) (currentTime : Q) (now : Date) :
  toolCall message = Some {| functionCalls := calls |} ->
  audio_decodes message = true ->
  exists (a' : App) (results : list FunctionResponse),
    onmessage toLocaleString message currentTime now a = (Done tt, a') /\
    toolResponses (session a') = toolResponses (session a) ++ [results] /\
    length results = length calls /\
    (forall (i : nat) (fc : FunctionCall),
        calls !! i = Some fc ->
        exists result,
          results !! i = Some result /\
          fr_id result = fc_id fc /\ fr_name result = fc_name fc).
Proof.
  intros Htc Haudio.
  pose proof (handleAudio_completes message currentTime a Haudio) as Hdone.
  pose proof (handleAudio_frame message currentTime a) as Hframe.
  rewrite onmessage_eq.
  destruct (handleAudio message currentTime a) as [o a1].
  cbn [fst snd] in Hdone, Hframe. subst o.
  destruct (tail_spec message now a1) as (a2 & E & _ & Hs & _).
  rewrite E. exists a2, (map response_of calls).
  destruct Hframe as (_ & _ & _ & _ & Hsession & _).
  rewrite Htc in Hs. cbn [functionCalls] in Hs.
  split; [reflexivity |]. split; [| split].
  - rewrite Hs, Hsession. reflexivity.
  - apply length_map.
  - intros i fc Hi. exists (response_of fc).
    rewrite list_lookup_fmap, Hi. repeat split.
Qed.

(** C5. For every invocation named saveCustomerDetails whose arguments
    carry the five required fields, arriving as a batch of its own: one
    record is appended to what a render shows of the captured data, its
    five fields are the arguments of the invocation and its timestamp is
    the (non-empty) local rendering of the current date; and one batch
    holding one success result with the id of the invocation is handed to
    the session. *)
Theorem save_call_appends_one_record (a : App) (message : LiveServerMessage)
    (fc : FunctionCall) (currentTime : Q) (now : Date)
    (v1 v2 v3 v4 v5 : string) :
  toLocaleString now <> EmptyString ->
  toolCall message = Some {| functionCalls := [fc] |} ->
  audio_decodes message = true ->
  fc_name fc = "saveCustomerDetails"%string ->
  fc_args fc !! "fullName"%string = Some v1 ->
  fc_args fc !! "phoneNumber"%string = Some v2 ->
  fc_args fc !! "monthlyIncome"%string = Some v3 ->
  fc_args fc !! "age"%string = Some v4 ->
  fc_args fc !! "insuranceType"%string = Some v5 ->
  exists (a' : App) (record : CustomerDetails),
    onmessage toLocaleString message currentTime now a = (Done tt, a') /\
    (forall r d, shown customerData r d a' = shown customerData r d a ++ [record]) /\
    record = {| fullName := JsString v1; phoneNumber := JsString v2;
                monthlyIncome := JsString v3; age := JsString v4;
                insuranceType := JsString v5;
                timestamp := toLocaleString now |} /\
    timestamp record <> EmptyString /\
    toolResponses (session a')
    = toolResponses (session a)
      ++ [[ {| fr_id := fc_id fc; fr_name := "saveCustomerDetails";
               fr_result := "Success: Customer details saved." |} ]].
Proof.
  intros Hts Htc Haudio Hname H1 H2 H3 H4 H5.
  pose proof (handleAudio_completes message currentTime a Haudio) as Hdone.
  pose proof (handleAudio_frame message currentTime a) as Hframe.
  rewrite onmessage_eq.
  destruct (handleAudio message currentTime a) as [o a1].
  cbn [fst snd] in Hdone, Hframe. subst o.
  destruct (tail_spec message now a1) as (a2 & E & _ & Hs & Hc).
  rewrite E. exists a2, (newCustomer toLocaleString fc now).
  destruct Hframe as (_ & Hcd & _ & _ & Hsession & _).
  rewrite Htc in Hs, Hc. cbn [functionCalls] in Hs, Hc.
  assert (Hsave : is_save fc = true) by (unfold is_save; rewrite Hname; reflexivity).
  split; [reflexivity |]. split; [| split; [| split]].
  - intros r d. unfold shown. rewrite Hc, Hcd.
    rewrite filter_cons_True by (rewrite Hsave; exact I). reflexivity.
  - unfold newCustomer, property. rewrite H1, H2, H3, H4, H5. reflexivity.
  - exact Hts.
  - rewrite Hs, Hsession. cbn [map sendToolResponse toolResponses].
    unfold response_of. rewrite Hname. reflexivity.
Qed.

(** C6. For every batch of invocations, each invocation whose name is
    not saveCustomerDetails gets, at its position in the one batch of
    results handed to the session, a result with its id, its name and
    the payload Unknown function; the records appended to what a render
    shows of the captured data are those of the invocations named
    saveCustomerDetails, so an invocation of an unregistered function
    appends none, and a batch of such invocations leaves the collection
    as it was. *)
Theorem unknown_call_declined (a : App) (message : LiveServerMessage)
    (calls : list FunctionCall) (currentTime : Q) (now : Date) :
  toolCall message = Some {| functionCalls := calls |} ->
  audio_decodes message = true ->
  exists (a' : App) (results : list FunctionResponse),
    onmessage toLocaleString message currentTime now a = (Done tt, a') /\
    toolResponses (session a') = toolResponses (session a) ++ [results] /\
    (forall (i : nat) (fc : FunctionCall),
        calls !! i = Some fc ->
        fc_name fc <> "saveCustomerDetails"%string ->
        results !! i = Some {| fr_id := fc_id fc; fr_name := fc_name fc;
                               fr_result := "Unknown function" |}) /\
    (forall r d,
        shown customerData r d a'
        = shown customerData r d a
          ++ map (fun fc => newCustomer toLocaleString fc now)
                 (filter is_save calls)) /\
    (Forall (fun fc => fc_name fc <> "saveCustomerDetails"%string) calls ->
     forall r d, shown customerData r d a' = shown customerData r d a).
Proof.
  intros Htc Haudio.
  pose proof (handleAudio_completes message currentTime a Haudio) as Hdone.
  pose proof (handleAudio_frame message currentTime a) as Hframe.
  rewrite onmessage_eq.
  destruct (handleAudio message currentTime a) as [o a1].
  cbn [fst snd] in Hdone, Hframe. subst o.
  destruct (tail_spec message now a1) as (a2 & E & _ & Hs & Hc).
  rewrite E. exists a2, (map response_of calls).
  destruct Hframe as (_ & Hcd & _ & _ & Hsession & _).
  rewrite Htc in Hs, Hc. cbn [functionCalls] in Hs, Hc.
  assert (Hshown : forall r d,
             shown customerData r d a2
             = shown customerData r d a
               ++ map (fun fc => newCustomer toLocaleString fc now)
                      (filter is_save calls))
    by (intros r d; unfold shown; rewrite Hc, Hcd; reflexivity).
  split; [reflexivity |]. split; [| split; [| split]].
  - rewrite Hs, Hsession. reflexivity.
  - intros i fc Hi Hname. rewrite list_lookup_fmap, Hi. cbn.
    unfold response_of. apply String.eqb_neq in Hname. rewrite Hname. reflexivity.
  - exact Hshown.
  - intros Hall r d. rewrite Hshown.
    replace (filter is_save calls) with (@nil FunctionCall);
      [cbn [map]; apply app_nil_r |].
    symmetry. apply filter_is_save_none, Hall.
Qed.


(** ** Playback scheduling *)

Lemma duration_nonneg (b : AudioBuffer) : (0 <= duration b)%Q.
Proof. unfold duration, Qle. simpl. lia. Qed.

Lemma no_overlap_snoc (l : list AudioBufferSourceNode) src :
  no_overlap l ->
  (forall s, s ∈ l -> (node_end s <= node_when src)%Q) ->
  no_overlap (l ++ [src]).
Proof.
  intros Hl Hsrc i s1 s2 H1 H2.
  destruct (decide (S i < length l)%nat) as [Hlt | Hge].
  - rewrite lookup_app_l in H1 by lia. rewrite lookup_app_l in H2 by lia.
    exact (Hl i s1 s2 H1 H2).
  - pose proof (lookup_lt_Some _ _ _ H2) as Hlen.
    rewrite length_app in Hlen. cbn [length] in Hlen.
    assert (S i = length l) as Hi by lia.
    rewrite lookup_app_l in H1 by lia.
    rewrite lookup_app_r in H2 by lia.
    rewrite Hi, Nat.sub_diag in H2. injection H2 as <-.
    apply Hsrc. eapply list_elem_of_lookup_2, H1.
Qed.

(** What the delivery of a message does to the output context and to the
    cursor. *)
Lemma deliver_playback (a : App) (e : Inbound) :
  let a1 := deliver toLocaleString a e in
  let cursor := Qmax (nextStartTimeRef (refs a)) (inbound_currentTime e) in
  match inbound_audio (inbound_message e), outputAudioContextRef (refs a) with
  | Some buf, Some ctx =>
      outputAudioContextRef (refs a1)
      = Some (AudioContext_start
                {| node_id := nextNodeId a; node_buffer := buf;
                   node_when := cursor |} ctx) /\
      nextStartTimeRef (refs a1) = (cursor + duration buf)%Q /\
      sourcesRef (refs a1) = {[ nextNodeId a ]} ∪ sourcesRef (refs a)
  | _, _ =>
      outputAudioContextRef (refs a1) = outputAudioContextRef (refs a) /\
      sourcesRef (refs a1) = sourcesRef (refs a) /\
      (nextStartTimeRef (refs a1) = nextStartTimeRef (refs a) \/
       (truthy (base64Audio_of (inbound_message e)) = true /\
        is_Some (outputAudioContextRef (refs a)) /\
        nextStartTimeRef (refs a1) = cursor))
  end.
Proof.
  destruct e as [message currentTime now]. unfold deliver, run.
  cbn [inbound_message inbound_currentTime inbound_now].
  rewrite onmessage_eq, handleAudio_eq.
  assert (Htail : forall b, exists b2,
             (handleTranscriptions message ;;
              handleTurnComplete message now ;;
              handleToolCall toLocaleString message now) b = (Done tt, b2) /\
             outputAudioContextRef (refs b2) = outputAudioContextRef (refs b) /\
             nextStartTimeRef (refs b2) = nextStartTimeRef (refs b) /\
             sourcesRef (refs b2) = sourcesRef (refs b)).
  { intros b. destruct (tail_spec message now b) as (b2 & E & F & _).
    exists b2. destruct F as (_ & ? & ? & ? & _). auto. }
  assert (Hfalsy : truthy (base64Audio_of message) = false ->
                   inbound_audio message = None)
    by (intros Hf; unfold inbound_audio; rewrite Hf; reflexivity).
  destruct (truthy (base64Audio_of message)) eqn:Ht.
  - destruct (outputAudioContextRef (refs a)) as [ctx |] eqn:Hctx.
    + cbv zeta. destruct (inbound_audio message) as [buf |].
      * destruct (Htail (scheduleSource buf
                   (with_refs (fun r => set_nextStartTimeRef
                      (Qmax (nextStartTimeRef r) currentTime) r)
                      (setIsSpeaking true a)))) as (b2 & E & H1 & H2 & H3).
        rewrite E. cbn [snd]. rewrite H1, H2, H3.
        cbn. rewrite Hctx. repeat split.
      * cbn. rewrite Hctx. repeat split. right. repeat split. eauto.
    + cbv zeta.
      destruct (Htail (setIsSpeaking true a)) as (b2 & E & H1 & H2 & H3).
      rewrite E. cbn [snd]. rewrite H1, H2, H3. cbn. rewrite Hctx.
      destruct (inbound_audio message); repeat split; left; reflexivity.
  - destruct (Htail a) as (b2 & E & H1 & H2 & H3).
    rewrite E. cbn [snd]. rewrite (Hfalsy eq_refl).
    repeat split; auto.
Qed.

(** The two invariants of the schedule are kept by every delivery. *)
Lemma deliver_keeps_schedule (a : App) (e : Inbound) :
  cursor_covers a -> no_overlap (started a) ->
  cursor_covers (deliver toLocaleString a e) /\
  no_overlap (started (deliver toLocaleString a e)).
Proof.
  intros Hcov Hno. pose proof (deliver_playback a e) as H. cbv zeta in H.
  unfold cursor_covers, started in *.
  pose proof (Q.le_max_l (nextStartTimeRef (refs a)) (inbound_currentTime e)) as Hmax.
  destruct (inbound_audio (inbound_message e)) as [buf |];
    destruct (outputAudioContextRef (refs a)) as [ctx |].
  - destruct H as (-> & -> & _). cbn [ctx_started AudioContext_start].
    pose proof (duration_nonneg buf) as Hd.
    split.
    + apply Forall_app. split.
      * eapply Forall_impl; [exact Hcov |]. cbn. intros s Hs. lra.
      * constructor; [| constructor]. unfold node_end. cbn. lra.
    + apply no_overlap_snoc; [exact Hno |].
      intros s Hs. rewrite Forall_forall in Hcov. specialize (Hcov s Hs).
      cbn. lra.
  - destruct H as (-> & _ & [-> | (_ & [? ?] & _)]); [auto | discriminate].
  - destruct H as (-> & _ & [-> | (_ & _ & ->)]); [auto |].
    split; [| exact Hno].
    eapply Forall_impl; [exact Hcov |]. cbn. intros s Hs. lra.
  - destruct H as (-> & _ & [-> | (_ & [? ?] & _)]); [auto | discriminate].
Qed.

Lemma deliveries_keep_schedule (es : list Inbound) (a : App) :
  cursor_covers a -> no_overlap (started a) ->
  cursor_covers (fold_left (deliver toLocaleString) es a) /\
  no_overlap (started (fold_left (deliver toLocaleString) es a)).
Proof.
  revert a. induction es as [| e es IH]; intros a Hcov Hno; [auto |].
  cbn [fold_left]. destruct (deliver_keeps_schedule a e Hcov Hno).
  apply IH; assumption.
Qed.

(** C1. Start from a store in which the cursor is no earlier than the end
    of any source started so far and no two sources started so far
    overlap (so it is after [connectToGemini]).  After any sequence of
    inbound messages, a further message whose audio decodes, delivered
    while the output context is set, starts exactly one source: at the
    cursor [max(nextStart, currentTime)], which is no earlier than the
    reading [currentTime] of the output clock and no earlier than the end
    of any source started before; the cursor then is that start plus the
    duration of the buffer.  Any other message starts nothing.  The
    started sources never overlap. *)
Theorem playback_never_in_past_nor_overlapping (a : App) (es : list Inbound)
    (e : Inbound) :
  cursor_covers a -> no_overlap (started a) ->
  let a0 := fold_left (deliver toLocaleString) es a in
  let a1 := deliver toLocaleString a0 e in
  no_overlap (started a1) /\
  cursor_covers a1 /\
  match inbound_audio (inbound_message e), outputAudioContextRef (refs a0) with
  | Some buf, Some _ =>
      exists src,
        started a1 = started a0 ++ [src] /\
        node_buffer src = buf /\
        node_when src = Qmax (nextStartTimeRef (refs a0)) (inbound_currentTime e) /\
        (inbound_currentTime e <= node_when src)%Q /\
        (forall prev, prev ∈ started a0 -> (node_end prev <= node_when src)%Q) /\
        nextStartTimeRef (refs a1) = (node_when src + duration buf)%Q
  | _, _ => started a1 = started a0
  end.
Proof.
  intros Hcov Hno a0 a1.
  destruct (deliveries_keep_schedule es a Hcov Hno) as [Hcov0 Hno0].
  fold a0 in Hcov0, Hno0.
  destruct (deliver_keeps_schedule a0 e Hcov0 Hno0) as [Hcov1 Hno1].
  fold a1 in Hcov1, Hno1.
  split; [exact Hno1 |]. split; [exact Hcov1 |].
  pose proof (deliver_playback a0 e) as H. cbv zeta in H. fold a1 in H.
  unfold started. unfold cursor_covers, started in Hcov0.
  destruct (inbound_audio (inbound_message e)) as [buf |];
    destruct (outputAudioContextRef (refs a0)) as [ctx |].
  - destruct H as (-> & -> & _). eexists. split; [reflexivity |].
    cbn [node_buffer node_when]. repeat split.
    + apply Q.le_max_r.
    + intros prev Hprev. rewrite Forall_forall in Hcov0.
      specialize (Hcov0 prev Hprev).
      pose proof (Q.le_max_l (nextStartTimeRef (refs a0)) (inbound_currentTime e)).
      lra.
  - destruct H as (-> & _). reflexivity.
  - destruct H as (-> & _). reflexivity.
  - destruct H as (-> & _). reflexivity.
Qed.


(** ** Chunks that arrive after the session was closed *)

Lemma ConnectionState_eqb_eq x y : ConnectionState_eqb x y = true -> x = y.
Proof. destruct x, y; (reflexivity || discriminate). Qed.

Lemma shown_after_setIsSpeaking (v : bool) (a : App) r d :
  shown isSpeaking r d (setIsSpeaking v a) = v.
Proof.
  unfold shown. cbn [isSpeaking setIsSpeaking]. symmetry.
  apply (render_after_set_value Bool.eqb eq); [reflexivity | |].
  - intros x y. apply Bool.eqb_prop.
  - intros Hl. apply (lanes_false_idle a Hl).
Qed.

Lemma shown_after_setConnectionState (v : ConnectionState) (a : App) r d :
  shown connectionState r d (setConnectionState v a) = v.
Proof.
  unfold shown. cbn [connectionState setConnectionState]. symmetry.
  apply (render_after_set_value ConnectionState_eqb eq); [reflexivity | |].
  - apply ConnectionState_eqb_eq.
  - intros Hl. apply (lanes_false_idle a Hl).
Qed.

(** A message that carries audio sets the speaking flag, whatever
    follows in the handler. *)
Lemma deliver_sets_speaking (a : App) (e : Inbound) :
  truthy (base64Audio_of (inbound_message e)) = true ->
  isSpeaking (deliver toLocaleString a e) = isSpeaking (setIsSpeaking true a).
Proof.
  destruct e as [message currentTime now]. unfold deliver, run.
  cbn [inbound_message inbound_currentTime inbound_now].
  intros Ht. rewrite onmessage_eq, handleAudio_eq, Ht.
  assert (Htail : forall b, exists b2,
             (handleTranscriptions message ;;
              handleTurnComplete message now ;;
              handleToolCall toLocaleString message now) b = (Done tt, b2) /\
             isSpeaking b2 = isSpeaking b).
  { intros b. destruct (tail_spec message now b) as (b2 & E & F & _).
    exists b2. destruct F as (_ & _ & _ & _ & _ & _ & _ & _ & ? & _). auto. }
  destruct (outputAudioContextRef (refs a)); cbv zeta.
  - destruct (inbound_audio message) as [buf |]; [| reflexivity].
    match goal with |- context [_ (scheduleSource buf ?x)] =>
      destruct (Htail (scheduleSource buf x)) as (b2 & E & H) end.
    rewrite E. cbn [snd]. rewrite H. reflexivity.
  - destruct (Htail (setIsSpeaking true a)) as (b2 & E & H).
    rewrite E. cbn [snd]. exact H.
Qed.

Lemma inbound_audio_truthy message buf :
  inbound_audio message = Some buf -> truthy (base64Audio_of message) = true.
Proof.
  unfold inbound_audio. destruct (truthy (base64Audio_of message)); [auto | discriminate].
Qed.

(** What [disconnect] does to the refs, to the session and to the
    rejections. *)
Lemma disconnect_effects (a : App) :
  let a1 := disconnect a in
  inputAudioContextRef (refs a1)
    = (fun c => fst (AudioContext_close c)) <$> inputAudioContextRef (refs a) /\
  outputAudioContextRef (refs a1)
    = (fun c => fst (AudioContext_close c)) <$> outputAudioContextRef (refs a) /\
  streamRef (refs a1) = map MediaStreamTrack_stop <$> streamRef (refs a) /\
  sessionPromiseRef (refs a1) = sessionPromiseRef (refs a) /\
  nextStartTimeRef (refs a1) = nextStartTimeRef (refs a) /\
  sourcesRef (refs a1) = sourcesRef (refs a) /\
  session a1 = match sessionPromiseRef (refs a) with
               | sessionPromise => Session_close (session a)
               | null => session a
               end /\
  unhandledRejections a1
    = unhandledRejections a
      ++ from_option (fun c => option_list (snd (AudioContext_close c))) []
           (inputAudioContextRef (refs a))
      ++ from_option (fun c => option_list (snd (AudioContext_close c))) []
           (outputAudioContextRef (refs a)).
Proof.
  unfold disconnect.
  destruct a as [cs cd tr vl sp [ic oc ns so st pr ci co] se ur nn].
  cbn [refs sessionPromiseRef].
  destruct pr, ic as [ic |], oc as [oc |], st as [st |]; cbn;
    rewrite ?app_nil_r, <- ?app_assoc; repeat split.
Qed.

Lemma onclose_refs (a : App) : refs (onclose a) = refs a.
Proof. reflexivity. Qed.

Lemma disconnect_shows_idle (a : App) r d :
  shown connectionState r d (disconnect a) = DISCONNECTED /\
  shown isSpeaking r d (disconnect a) = false.
Proof.
  unfold disconnect.
  match goal with
  | |- context [setConnectionState DISCONNECTED ?x] => generalize x
  end.
  intros b. split.
  - apply (shown_after_setConnectionState DISCONNECTED b).
  - apply (shown_after_setIsSpeaking false (setConnectionState DISCONNECTED b)).
Qed.


(** C8, amended.  The handler does not look at the connection state, and
    neither [onclose] nor [disconnect] clears the reference to the output
    context.  So a chunk whose audio decodes, arriving after either of
    them (and after the render that shows DISCONNECTED), is processed as
    during the call: the speaking flag is set; when the output context
    reference is set, a source with the decoded buffer is started at
    [max(nextStart, currentTime)], joins [sourcesRef], and the cursor
    becomes that start plus the duration of the buffer.  Only when no
    output context was ever created is nothing started and the cursor
    unchanged. *)
Theorem chunk_after_close_is_scheduled (a a0 : App) (d : Date) (e : Inbound)
    (buf : AudioBuffer) :
  inbound_audio (inbound_message e) = Some buf ->
  a0 = render d (onclose a) \/ a0 = render d (disconnect a) ->
  let a1 := deliver toLocaleString a0 e in
  memoizedState (connectionState a0) = DISCONNECTED /\
  (forall r d', shown isSpeaking r d' a1 = true) /\
  match outputAudioContextRef (refs a) with
  | Some ctx =>
      exists src,
        started a1 = ctx_started ctx ++ [src] /\
        node_buffer src = buf /\
        node_when src
          = Qmax (nextStartTimeRef (refs a)) (inbound_currentTime e) /\
        node_id src ∈ sourcesRef (refs a1) /\
        nextStartTimeRef (refs a1) = (node_when src + duration buf)%Q
  | None =>
      started a1 = [] /\ nextStartTimeRef (refs a1) = nextStartTimeRef (refs a)
  end.
Proof.
  intros Hbuf Ha0 a1. split; [| split].
  - destruct Ha0 as [E0 | E0]; rewrite E0.
    + apply (shown_after_setConnectionState DISCONNECTED a).
    + apply (disconnect_shows_idle a).
  - intros r d'. unfold shown, a1.
    rewrite deliver_sets_speaking by (eapply inbound_audio_truthy, Hbuf).
    apply shown_after_setIsSpeaking.
  - assert (Hrefs : nextStartTimeRef (refs a0) = nextStartTimeRef (refs a) /\
                    ctx_started <$> outputAudioContextRef (refs a0)
                    = ctx_started <$> outputAudioContextRef (refs a)).
    { destruct Ha0 as [E0 | E0]; rewrite E0; cbn [refs render].
      - rewrite onclose_refs. split; reflexivity.
      - destruct (disconnect_effects a) as (_ & -> & _ & _ & -> & _).
        split; [reflexivity |].
        destruct (outputAudioContextRef (refs a)); reflexivity. }
    destruct Hrefs as [Hns Hctx].
    pose proof (deliver_playback a0 e) as H. cbv zeta in H. fold a1 in H.
    rewrite Hbuf, Hns in H. unfold started.
    destruct (outputAudioContextRef (refs a)) as [ctx |];
      destruct (outputAudioContextRef (refs a0)) as [ctx0 |];
      try discriminate Hctx.
    + injection Hctx as Hctx.
      destruct H as (-> & -> & ->). eexists. split; [cbn; rewrite Hctx; reflexivity |].
      cbn [node_buffer node_when node_id]. repeat split.
      apply elem_of_union_l, elem_of_singleton. reflexivity.
    + destruct H as (-> & _ & [-> | (_ & [? ?] & _)]); [auto | discriminate].
Qed.

(** ** [disconnect] called twice *)

(** C7, amended.  Take a store in which the session promise, both audio
    contexts and the stream are set, as after [connectToGemini].  After
    each of two successive calls of [disconnect] the state shown is
    DISCONNECTED and the speaking flag is off.  [disconnect] never clears
    a ref, so the second call releases everything again: over the two
    calls [close()] was called twice on the session and on each context
    and [stop()] twice on each track.  The resources stay released (the
    session closed, the contexts closed, the tracks ended), and each of
    the two [close()] calls that the second call makes on an already
    closed context is refused with [InvalidStateError], a rejection that
    nothing handles. *)
Theorem disconnect_twice_releases_twice (a : App) (input output : AudioContext)
    (tracks : list MediaStreamTrack) :
  sessionPromiseRef (refs a) = sessionPromise ->
  inputAudioContextRef (refs a) = Some input ->
  outputAudioContextRef (refs a) = Some output ->
  streamRef (refs a) = Some tracks ->
  let a1 := disconnect a in
  let a2 := disconnect a1 in
  (forall r d, shown connectionState r d a1 = DISCONNECTED) /\
  (forall r d, shown connectionState r d a2 = DISCONNECTED) /\
  (forall r d, shown isSpeaking r d a1 = false) /\
  (forall r d, shown isSpeaking r d a2 = false) /\
  session a1 = {| session_open := false;
                  session_close_calls := 1 + session_close_calls (session a);
                  toolResponses := toolResponses (session a) |} /\
  session a2 = {| session_open := false;
                  session_close_calls := 2 + session_close_calls (session a);
                  toolResponses := toolResponses (session a) |} /\
  inputAudioContextRef (refs a2)
    = Some {| ctx_sampleRate := ctx_sampleRate input; ctx_state := closed;
              ctx_close_calls := 2 + ctx_close_calls input;
              ctx_started := ctx_started input |} /\
  outputAudioContextRef (refs a2)
    = Some {| ctx_sampleRate := ctx_sampleRate output; ctx_state := closed;
              ctx_close_calls := 2 + ctx_close_calls output;
              ctx_started := ctx_started output |} /\
  streamRef (refs a2)
    = Some (map (fun t => {| track_live := false;
                             track_stop_calls := 2 + track_stop_calls t |})
                tracks) /\
  unhandledRejections a2
    = unhandledRejections a1 ++ ["InvalidStateError"; "InvalidStateError"]%string.
Proof.
  intros Hp Hi Ho Hs a1 a2.
  pose proof (disconnect_effects a) as E1. cbv zeta in E1. fold a1 in E1.
  pose proof (disconnect_effects a1) as E2. cbv zeta in E2. fold a2 in E2.
  destruct E1 as (I1 & O1 & S1 & P1 & _ & _ & Se1 & _).
  destruct E2 as (I2 & O2 & S2 & _ & _ & _ & Se2 & R2).
  rewrite Hi in I1. rewrite Ho in O1. rewrite Hs in S1. rewrite Hp in P1, Se1.
  rewrite I1 in I2, R2. rewrite O1 in O2, R2. rewrite S1 in S2.
  rewrite P1, Se1 in Se2.
  repeat split;
    try (intros r d; apply (disconnect_shows_idle _ r d)).
  - exact Se1.
  - exact Se2.
  - exact I2.
  - exact O2.
  - rewrite S2. cbn. f_equal. rewrite map_map. reflexivity.
  - exact R2.
Qed.

(** ** Turn completion *)

(** When both transcription buffers hold text at a turn completion, the
    message committed for the model has the text that the buffer holds
    when React runs the queued function, which is after the handler
    cleared it. *)
Lemma turnComplete_commit_reads_cleared_buffer (a : App) (currentTime : Q)
    (now : Date) :
  nonempty (currentInputTranscription (refs a)) = true ->
  nonempty (currentOutputTranscription (refs a)) = true ->
  let a1 := deliver toLocaleString a
              {| inbound_message := turnCompleteMessage;
                 inbound_currentTime := currentTime; inbound_now := now |} in
  currentInputTranscription (refs a1) = EmptyString /\
  currentOutputTranscription (refs a1) = EmptyString /\
  forall d, exists earlier,
    shown transcripts (refs a1) d a1
    = earlier ++ [ {| role := model; text := EmptyString;
                      message_timestamp := d |} ].
Proof.
  intros Hin Hout a1. subst a1.
  unfold deliver, run, onmessage, handleAudio, handleTranscriptions,
    handleTurnComplete, handleToolCall.
  cbn [inbound_message inbound_currentTime inbound_now turnCompleteMessage
       serverContent toolCall base64Audio_of truthy mbind option_bind
       modelTurn inputTranscription outputTranscription turnComplete
       fmap option_map option_fmap default from_option].
  cbv [mbind mret Handler_bind Handler_ret modify gets id].
  cbv beta iota. rewrite Hin. cbv beta iota.
  cbn [refs with_refs setTranscripts currentOutputTranscription
       set_currentInputTranscription].
  rewrite Hout. cbv beta iota.
  cbn [snd refs with_refs setTranscripts
       currentOutputTranscription currentInputTranscription
       set_currentInputTranscription set_currentOutputTranscription].
  split; [reflexivity |]. split; [reflexivity |].
  intros d. unfold shown.
  match goal with
  | |- context [setTranscripts ?f now (with_refs ?g ?y)] =>
      set (x := with_refs g y)
  end.
  cbn [transcripts with_refs setTranscripts].
  assert (Hl : lanes x = true).
  { subst x. unfold lanes at 1. unfold scheduled, idle.
    cbn [transcripts with_refs setTranscripts].
    unfold dispatchSetState, fresh_array.
    destruct (lanes a); cbn [queue];
      destruct (queue (transcripts a)); cbn;
      rewrite ?andb_false_r; reflexivity. }
  rewrite Hl. unfold dispatchSetState at 1.
  rewrite processQueue_snoc. cbn [eagerState action currentOutputTranscription].
  eexists. reflexivity.
Qed.

End SessionProperties.

(** ** The statements at concrete inputs *)

Lemma playback_never_in_past_nor_overlapping_witness :
  let e1 := {| inbound_message := audioMessage sample_chunk;
               inbound_currentTime := 1; inbound_now := 5 |} in
  let e2 := {| inbound_message := audioMessage sample_chunk;
               inbound_currentTime := 5 # 2; inbound_now := 6 |} in
  let a0 := fold_left (deliver sample_toLocaleString) [e1] connectedApp in
  let a1 := deliver sample_toLocaleString a0 e2 in
  no_overlap (started a1) /\
  cursor_covers a1 /\
  match inbound_audio (inbound_message e2), outputAudioContextRef (refs a0) with
  | Some buf, Some _ =>
      exists src,
        started a1 = started a0 ++ [src] /\
        node_buffer src = buf /\
        node_when src = Qmax (nextStartTimeRef (refs a0)) (inbound_currentTime e2) /\
        (inbound_currentTime e2 <= node_when src)%Q /\
        (forall prev, prev ∈ started a0 -> (node_end prev <= node_when src)%Q) /\
        nextStartTimeRef (refs a1) = (node_when src + duration buf)%Q
  | _, _ => started a1 = started a0
  end.
Proof.
  intros e1 e2.
  apply (playback_never_in_past_nor_overlapping sample_toLocaleString
           connectedApp [e1] e2).
  - unfold cursor_covers. vm_compute. constructor.
  - intros i s1 s2 H. vm_compute in H. discriminate.
Defined.

Lemma tool_results_match_invocations_witness :
  exists (a' : App) (results : list FunctionResponse),
    onmessage sample_toLocaleString
      (toolCallMessage [sample_save_call; sample_unknown_call]) 0 7 connectedApp
    = (Done tt, a') /\
    toolResponses (session a') = toolResponses (session connectedApp) ++ [results] /\
    length results = length [sample_save_call; sample_unknown_call] /\
    (forall (i : nat) (fc : FunctionCall),
        [sample_save_call; sample_unknown_call] !! i = Some fc ->
        exists result,
          results !! i = Some result /\
          fr_id result = fc_id fc /\ fr_name result = fc_name fc).
Proof.
  apply (tool_results_match_invocations sample_toLocaleString connectedApp
           (toolCallMessage [sample_save_call; sample_unknown_call])
           [sample_save_call; sample_unknown_call] 0 7).
  - reflexivity.
  - reflexivity.
Defined.

Lemma save_call_appends_one_record_witness :
  exists (a' : App) (record : CustomerDetails),
    onmessage sample_toLocaleString (toolCallMessage [sample_save_call]) 0 7
      connectedApp = (Done tt, a') /\
    (forall r d,
        shown customerData r d a' = shown customerData r d connectedApp ++ [record]) /\
    record = {| fullName := JsString "Ann Lee"; phoneNumber := JsString "555-0100";
                monthlyIncome := JsString "4000"; age := JsString "41";
                insuranceType := JsString "Health";
                timestamp := sample_toLocaleString 7 |} /\
    timestamp record <> EmptyString /\
    toolResponses (session a')
    = toolResponses (session connectedApp)
      ++ [[ {| fr_id := fc_id sample_save_call; fr_name := "saveCustomerDetails";
               fr_result := "Success: Customer details saved." |} ]].
Proof.
  apply (save_call_appends_one_record sample_toLocaleString connectedApp
           (toolCallMessage [sample_save_call]) sample_save_call 0 7
           "Ann Lee" "555-0100" "4000" "41" "Health").
  - discriminate.
  - reflexivity.
  - reflexivity.
  - reflexivity.
  - vm_compute. reflexivity.
  - vm_compute. reflexivity.
  - vm_compute. reflexivity.
  - vm_compute. reflexivity.
  - vm_compute. reflexivity.
Defined.

Lemma unknown_call_declined_witness :
  exists (a' : App) (results : list FunctionResponse),
    onmessage sample_toLocaleString (toolCallMessage [sample_unknown_call]) 0 7
      connectedApp = (Done tt, a') /\
    toolResponses (session a') = toolResponses (session connectedApp) ++ [results] /\
    (forall (i : nat) (fc : FunctionCall),
        [sample_unknown_call] !! i = Some fc ->
        fc_name fc <> "saveCustomerDetails"%string ->
        results !! i = Some {| fr_id := fc_id fc; fr_name := fc_name fc;
                               fr_result := "Unknown function" |}) /\
    (forall r d,
        shown customerData r d a'
        = shown customerData r d connectedApp
          ++ map (fun fc => newCustomer sample_toLocaleString fc 7)
                 (filter is_save [sample_unknown_call])) /\
    (Forall (fun fc => fc_name fc <> "saveCustomerDetails"%string)
            [sample_unknown_call] ->
     forall r d, shown customerData r d a' = shown customerData r d connectedApp).
Proof.
  apply (unknown_call_declined sample_toLocaleString connectedApp
           (toolCallMessage [sample_unknown_call]) [sample_unknown_call] 0 7).
  - reflexivity.
  - reflexivity.
Defined.

Lemma disconnect_twice_releases_twice_witness :
  let a := connectedApp in
  let input := newAudioContext 16000 in
  let output := newAudioContext 24000 in
  let tracks := [ {| track_live := true; track_stop_calls := 0 |} ] in
  let a1 := disconnect a in
  let a2 := disconnect a1 in
  (forall r d, shown connectionState r d a1 = DISCONNECTED) /\
  (forall r d, shown connectionState r d a2 = DISCONNECTED) /\
  (forall r d, shown isSpeaking r d a1 = false) /\
  (forall r d, shown isSpeaking r d a2 = false) /\
  session a1 = {| session_open := false;
                  session_close_calls := 1 + session_close_calls (session a);
                  toolResponses := toolResponses (session a) |} /\
  session a2 = {| session_open := false;
                  session_close_calls := 2 + session_close_calls (session a);
                  toolResponses := toolResponses (session a) |} /\
  inputAudioContextRef (refs a2)
    = Some {| ctx_sampleRate := ctx_sampleRate input; ctx_state := closed;
              ctx_close_calls := 2 + ctx_close_calls input;
              ctx_started := ctx_started input |} /\
  outputAudioContextRef (refs a2)
    = Some {| ctx_sampleRate := ctx_sampleRate output; ctx_state := closed;
              ctx_close_calls := 2 + ctx_close_calls output;
              ctx_started := ctx_started output |} /\
  streamRef (refs a2)
    = Some (map (fun t => {| track_live := false;
                             track_stop_calls := 2 + track_stop_calls t |})
                tracks) /\
  unhandledRejections a2
    = unhandledRejections a1 ++ ["InvalidStateError"; "InvalidStateError"]%string.
Proof.
  intros a input output tracks.
  apply (disconnect_twice_releases_twice a input output tracks).
  - reflexivity.
  - reflexivity.
  - reflexivity.
  - reflexivity.
Defined.

(** C7, as stated, fails on the store of an established call: over two
    calls of [disconnect], [close()] is called twice on the session and on
    each audio context, [stop()] twice on the track, and the second
    [close()] of each context is refused. *)
Lemma disconnect_twice_releases_again :
  let a2 := disconnect (disconnect connectedApp) in
  session_close_calls (session a2) = 2%nat /\
  ctx_close_calls <$> inputAudioContextRef (refs a2) = Some 2%nat /\
  ctx_close_calls <$> outputAudioContextRef (refs a2) = Some 2%nat /\
  map track_stop_calls <$> streamRef (refs a2) = Some [2%nat] /\
  unhandledRejections a2 = ["InvalidStateError"; "InvalidStateError"]%string /\
  ~ disconnect_releases_once connectedApp.
Proof.
  cbv zeta. repeat split; try reflexivity.
  intros (_ & _ & H & _). vm_compute in H. discriminate.
Qed.

Lemma chunk_after_close_is_scheduled_witness :
  let e := {| inbound_message := audioMessage sample_chunk;
              inbound_currentTime := 5 # 2; inbound_now := 6 |} in
  let buf := {| numberOfChannels := 1; buffer_length := 3; sampleRate := 24000;
                channelData := [[0 # 32768; 32767 # 32768; -32768 # 32768]%Q] |} in
  let a := connectedApp in
  let a0 := render 1 (disconnect a) in
  let a1 := deliver sample_toLocaleString a0 e in
  memoizedState (connectionState a0) = DISCONNECTED /\
  (forall r d', shown isSpeaking r d' a1 = true) /\
  match outputAudioContextRef (refs a) with
  | Some ctx =>
      exists src,
        started a1 = ctx_started ctx ++ [src] /\
        node_buffer src = buf /\
        node_when src = Qmax (nextStartTimeRef (refs a)) (inbound_currentTime e) /\
        node_id src ∈ sourcesRef (refs a1) /\
        nextStartTimeRef (refs a1) = (node_when src + duration buf)%Q
  | None =>
      started a1 = [] /\ nextStartTimeRef (refs a1) = nextStartTimeRef (refs a)
  end.
Proof.
  intros e buf a a0.
  apply (chunk_after_close_is_scheduled sample_toLocaleString a a0 1 e buf).
  - reflexivity.
  - right. reflexivity.
Defined.

(** C8, as stated, fails.  On the store of an established call, closed by
    [onclose] or by [disconnect] and rendered, a chunk of three frames that
    arrives at output-clock time 2.5 is not dropped: a source is started at
    2.5, the cursor moves from 0 to 2.5 + 3/24000, the source joins
    [sourcesRef], and the next render shows the speaking flag set. *)
Lemma chunk_after_close_not_dropped :
  let e := {| inbound_message := audioMessage sample_chunk;
              inbound_currentTime := 5 # 2; inbound_now := 6 |} in
  let after (a0 : App) :=
    let a1 := deliver sample_toLocaleString a0 e in
    shown connectionState (refs a0) 1 a0 = DISCONNECTED /\
    shown isSpeaking (refs a0) 1 a0 = false /\
    started a0 = [] /\
    map node_when (started a1) = [5 # 2]%Q /\
    nextStartTimeRef (refs a0) = 0%Q /\
    nextStartTimeRef (refs a1) = ((5 # 2) + (3 # 24000))%Q /\
    shown isSpeaking (refs a1) 0 a1 = true /\
    ~ silently_dropped a0 a1 in
  after (render 1 (onclose connectedApp)) /\
  after (render 1 (disconnect connectedApp)).
Proof.
  cbv zeta. repeat split; try reflexivity;
    intros (H & _); vm_compute in H; discriminate.
Qed.

(** C2 fails on the code.  On the store of an established call the
    deltas Hello and there for the user and Hi for the model arrive, then
    the turn completes, then React renders.  Both buffers are empty after
    the handler and one message per role is appended, user first, but
    neither has the text of its deltas.  The render that showed the call
    as connected left lanes on the alternate fiber, so [setTranscripts]
    queues both functions; they run at the next render and read
    [currentInputTranscription] and [currentOutputTranscription] then,
    after lines 180 and 188 cleared them.  Both messages have the empty
    text, and the time of that render as their timestamp. *)
Lemma turn_commit_loses_model_text :
  let at_ (m : LiveServerMessage) (d : Date) :=
    {| inbound_message := m; inbound_currentTime := 0; inbound_now := d |} in
  let a := fold_left (deliver sample_toLocaleString)
             [at_ (inputDelta "Hello") 2; at_ (inputDelta " there") 3;
              at_ (outputDelta "Hi") 4; at_ turnCompleteMessage 5]
             connectedApp in
  lanes connectedApp = true /\
  currentInputTranscription (refs a) = EmptyString /\
  currentOutputTranscription (refs a) = EmptyString /\
  memoizedState (transcripts (render 9 a))
  = [ {| role := user; text := EmptyString; message_timestamp := 9 |};
      {| role := model; text := EmptyString; message_timestamp := 9 |} ] /\
  map text (memoizedState (transcripts (render 9 a))) <> ["Hello there"; "Hi"].
Proof.
  cbv zeta. repeat split; try reflexivity.
  vm_compute. discriminate.
Qed.

(** ** CSV export *)

(** Every field of a customer row is a value wrapped in double quotes; the
    value is written as it is. *)
Lemma customerRow_quoted (c : CustomerDetails) :
  customerRow c
  = map quoted [template (fullName c); template (phoneNumber c);
                template (monthlyIncome c); template (age c);
                template (insuranceType c); timestamp c].
Proof. reflexivity. Qed.

(** Every field of a transcript row is wrapped in double quotes, and the
    double quotes of the text are doubled. *)
Lemma transcriptRow_quoted (toISOString : Date -> string) (t : ChatMessage) :
  transcriptRow toISOString t
  = map quoted [toISOString (message_timestamp t); Role_string (role t);
                escape_quotes (text t)].
Proof. reflexivity. Qed.

(** C9 fails on the code, for the customer file.  A record whose name is
    Ann, AJ between double quotes, Lee is exported with the name wrapped in
    double quotes but its own double quotes left single, whereas the same
    text as the message of a transcript row has them doubled. *)
Lemma customer_export_leaves_quotes_undoubled :
  let name := ("Ann " +:+ dquote +:+ "AJ" +:+ dquote +:+ " Lee")%string in
  let c := {| fullName := JsString name; phoneNumber := JsString "555-0100";
              monthlyIncome := JsString "4000"; age := JsString "41";
              insuranceType := JsString "Health";
              timestamp := sample_toLocaleString 0 |} in
  let t := {| role := user; text := name; message_timestamp := 0 |} in
  download_content <$> exportToCSV sample_toISOString [c] [] 0
  = [ ("Full Name,Phone,Income,Age,Insurance Type,Timestamp" +:+ newline
       +:+ dquote +:+ "Ann " +:+ dquote +:+ "AJ" +:+ dquote +:+ " Lee" +:+ dquote
       +:+ "," +:+ quoted "555-0100" +:+ "," +:+ quoted "4000" +:+ ","
       +:+ quoted "41" +:+ "," +:+ quoted "Health" +:+ ","
       +:+ quoted "11/2/2026, 11:44:00 AM")%string ] /\
  head (customerRow c) = Some (quoted name) /\
  quoted name <> quoted (escape_quotes name) /\
  last (transcriptRow sample_toISOString t)
  = Some (dquote +:+ "Ann " +:+ dquote +:+ dquote +:+ "AJ" +:+ dquote +:+ dquote
          +:+ " Lee" +:+ dquote)%string.
Proof.
  cbv zeta. repeat split; try reflexivity.
  vm_compute. discriminate.
Qed.

(** * Further properties of the audio utilities *)

Lemma btoa_length (bytes : list byte) :
  length (btoa bytes) = (4 * ((length bytes + 2) / 3))%nat.
Proof.
  induction bytes as [| a | a b | a b c r IH] using list_ind3;
    try reflexivity.
  cbn [btoa length]. rewrite IH.
  replace (S (S (S (length r))) + 2)%nat with (length r + 2 + 1 * 3)%nat by lia.
  rewrite Nat.div_add by discriminate. lia.
Qed.

Lemma string_of_list_ascii_length (l : list ascii) :
  String.length (string_of_list_ascii l) = length l.
Proof. induction l as [| c l IH]; [reflexivity |]. cbn. now rewrite IH. Qed.

(** [decode] inverts [encode] on every byte sequence, and the text that
    [encode] produces has four characters for every three bytes, the last
    group padded. *)
Theorem base64_transport_lossless (bytes : list byte) :
  decode (encode bytes) = Some bytes /\
  String.length (encode bytes) = (4 * ((length bytes + 2) / 3))%nat.
Proof.
  split; [apply decode_encode |].
  unfold encode. rewrite string_of_list_ascii_length. apply btoa_length.
Qed.

Lemma Uint8Array_of_Int16Array_length (l : list Z) :
  length (Uint8Array_of_Int16Array l) = (2 * length l)%nat.
Proof.
  induction l as [| v l IH]; [reflexivity |].
  cbn [Uint8Array_of_Int16Array flat_map app length].
  fold (Uint8Array_of_Int16Array l). rewrite IH. lia.
Qed.

(** Whatever the samples (also out of range, infinite or NaN), the blob of
    [createBlob] is labelled as 16 kHz PCM, and its data decodes to two
    bytes per sample which, viewed as 16-bit integers, are exactly the
    values the loop stored. *)
Theorem createBlob_carries_the_samples (data : list number) :
  blob_mimeType (createBlob data) = "audio/pcm;rate=16000"%string /\
  exists bytes,
    decode (blob_data (createBlob data)) = Some bytes /\
    length bytes = (2 * length data)%nat /\
    Int16Array_of_buffer bytes = Some (createBlob_int16 data).
Proof.
  split; [reflexivity |].
  exists (Uint8Array_of_Int16Array (createBlob_int16 data)).
  split; [apply decode_encode |]. split.
  - rewrite Uint8Array_of_Int16Array_length. unfold createBlob_int16.
    rewrite length_map. reflexivity.
  - apply Int16Array_bytes_roundtrip, createBlob_int16_range.
Qed.

(** *** [decodeAudioData] *)

Lemma list_ind2 {A} (P : list A -> Prop) :
  P [] -> (forall a, P [a]) -> (forall a b r, P r -> P (a :: b :: r)) ->
  forall l, P l.
Proof.
  intros H0 H1 H2. fix IH 1.
  intros [| a [| b r]]; [apply H0 | apply H1 | apply H2, IH].
Qed.

(** The 16-bit view of a buffer: refused exactly when the byte length is
    odd; otherwise one value in the signed range per pair of bytes. *)
Lemma Int16Array_of_buffer_spec (bytes : list byte) :
  match Int16Array_of_buffer bytes with
  | Some l => length bytes = (2 * length l)%nat /\
              Forall (fun v => -32768 <= v <= 32767) l
  | None => Nat.Odd (length bytes)
  end.
Proof.
  induction bytes as [| a | a b r IH] using list_ind2.
  - split; [reflexivity | constructor].
  - exists 0%nat. reflexivity.
  - cbn [Int16Array_of_buffer].
    destruct (Int16Array_of_buffer r) as [l |].
    + destruct IH as [Hlen Hall]. split; [cbn [length]; lia |].
      constructor; [| exact Hall].
      unfold Z_of_byte.
      pose proof (Byte.to_N_bounded a). pose proof (Byte.to_N_bounded b).
      destruct (_ <? 32768) eqn:E;
        [apply Z.ltb_lt in E | apply Z.ltb_ge in E]; lia.
    + destruct IH as [k Hk]. exists (S k). cbn [length]. lia.
Qed.

Lemma decode_channel_length (l : list Z) (nc k c : nat) :
  length (decode_channel l nc k c) = k.
Proof. unfold decode_channel. rewrite length_map. apply length_seq. Qed.

Lemma decode_channel_range (l : list Z) (nc k c : nat) :
  Forall (fun v => -32768 <= v <= 32767) l ->
  Forall (fun s => (-1 # 1 <= s)%Q /\ (s < 1)%Q) (decode_channel l nc k c).
Proof.
  intros Hl. unfold decode_channel. apply Forall_forall. intros s Hs.
  apply list_elem_of_fmap in Hs as (i & -> & _).
  assert (Hv : -32768 <= default 0 (l !! (i * nc + c)%nat) <= 32767).
  { destruct (l !! (i * nc + c)%nat) as [v |] eqn:E; cbn; [| lia].
    rewrite Forall_forall in Hl. apply Hl. eapply list_elem_of_lookup_2, E. }
  revert Hv. generalize (default 0 (l !! (i * nc + c)%nat)). intros v Hv.
  unfold Qle, Qlt. cbn. lia.
Qed.

(** [decodeAudioData] on one channel, at a sample rate that every
    platform supports: the promise is rejected exactly when the data is
    empty or of odd length; otherwise the buffer has one channel with one
    frame per pair of bytes, lasting frames / rate seconds, and every
    sample lies in [-1, 1). *)
Theorem decodeAudioData_mono_shape (data : list byte) (rate : positive) :
  (8000 <= rate <= 96000)%positive ->
  match decodeAudioData data rate 1 with
  | None => data = [] \/ Nat.Odd (length data)
  | Some buf =>
      length data = (2 * buffer_length buf)%nat /\
      (0 < buffer_length buf)%nat /\
      numberOfChannels buf = 1%nat /\
      sampleRate buf = rate /\
      duration buf = (Z.of_nat (length data / 2) # rate)%Q /\
      exists samples,
        channelData buf = [samples] /\
        length samples = buffer_length buf /\
        Forall (fun s => (-1 # 1 <= s)%Q /\ (s < 1)%Q) samples
  end.
Proof.
  intros _. unfold decodeAudioData.
  pose proof (Int16Array_of_buffer_spec data) as H.
  destruct (Int16Array_of_buffer data) as [l |]; [| right; exact H].
  destruct H as [Hlen Hall]. rewrite Nat.div_1_r.
  destruct l as [| v l'].
  - left. destruct data; [reflexivity | discriminate].
  - assert (Hdiv : (length data / 2 = length (v :: l'))%nat)
      by (rewrite Hlen, Nat.mul_comm; apply Nat.div_mul; discriminate).
    cbn [Nat.eqb orb length]. cbn [buffer_length numberOfChannels sampleRate channelData].
    repeat split; try (cbn [length] in Hlen; lia).
    + unfold duration. cbn [buffer_length sampleRate]. rewrite Hdiv. reflexivity.
    + eexists. split; [reflexivity |]. split.
      * apply decode_channel_length.
      * apply decode_channel_range, Hall.
Qed.

Lemma decodeAudioData_mono_shape_witness :
  match decodeAudioData [x00; x00; xff; x7f; x00; x80] 24000 1 with
  | None => [x00; x00; xff; x7f; x00; x80] = [] \/
            Nat.Odd (length [x00; x00; xff; x7f; x00; x80])
  | Some buf =>
      length [x00; x00; xff; x7f; x00; x80] = (2 * buffer_length buf)%nat /\
      (0 < buffer_length buf)%nat /\
      numberOfChannels buf = 1%nat /\
      sampleRate buf = 24000%positive /\
      duration buf
        = (Z.of_nat (length [x00; x00; xff; x7f; x00; x80] / 2) # 24000)%Q /\
      exists samples,
        channelData buf = [samples] /\
        length samples = buffer_length buf /\
        Forall (fun s => (-1 # 1 <= s)%Q /\ (s < 1)%Q) samples
  end.
Proof.
  apply (decodeAudioData_mono_shape [x00; x00; xff; x7f; x00; x80] 24000).
  split; discriminate.
Defined.

(** [decodeAudioData] on interleaved data of several channels (at most the
    32 of [createBuffer]): for [k] frames of [nc] channels the buffer has
    [nc] channels of [k] frames, and frame [i] of channel [c] is the
    16-bit value at position [i * nc + c], over 32768. *)
Theorem decodeAudioData_deinterleaves (l : list Z) (rate : positive)
    (nc k : nat) :
  (1 <= nc <= 32)%nat ->
  (0 < k)%nat ->
  length l = (k * nc)%nat ->
  Forall (fun v => -32768 <= v <= 32767) l ->
  (8000 <= rate <= 96000)%positive ->
  exists buf,
    decodeAudioData (Uint8Array_of_Int16Array l) rate nc = Some buf /\
    numberOfChannels buf = nc /\
    buffer_length buf = k /\
    length (channelData buf) = nc /\
    forall (c i : nat),
      (c < nc)%nat -> (i < k)%nat ->
      exists (channel : list Q) (v : Z),
        channelData buf !! c = Some channel /\
        length channel = k /\
        l !! (i * nc + c)%nat = Some v /\
        channel !! i = Some (v # 32768)%Q.
Proof.
  intros Hnc Hk Hlen Hl _. unfold decodeAudioData.
  rewrite (Int16Array_bytes_roundtrip l Hl).
  rewrite Hlen, Nat.div_mul by lia.
  destruct (Nat.eqb_spec nc 0) as [? | _]; [lia |].
  destruct (Nat.eqb_spec k 0) as [? | _]; [lia |].
  cbn [orb]. eexists. split; [reflexivity |].
  cbn [numberOfChannels buffer_length channelData].
  split; [reflexivity |]. split; [reflexivity |].
  split; [rewrite length_map; apply length_seq |].
  intros c i Hc Hi.
  assert (Hpos : (i * nc + c < length l)%nat) by nia.
  destruct (lookup_lt_is_Some_2 l _ Hpos) as [v Hv].
  exists (decode_channel l nc k c), v.
  split; [| split; [apply decode_channel_length | split; [exact Hv |]]].
  - rewrite list_lookup_fmap, lookup_seq_lt by exact Hc. reflexivity.
  - unfold decode_channel.
    rewrite list_lookup_fmap, lookup_seq_lt by exact Hi.
    cbn. rewrite Hv. reflexivity.
Qed.

Lemma decodeAudioData_deinterleaves_witness :
  exists buf,
    decodeAudioData (Uint8Array_of_Int16Array [1; -2; 3; -4; 5; -6]) 24000 2
    = Some buf /\
    numberOfChannels buf = 2%nat /\
    buffer_length buf = 3%nat /\
    length (channelData buf) = 2%nat /\
    forall (c i : nat),
      (c < 2)%nat -> (i < 3)%nat ->
      exists (channel : list Q) (v : Z),
        channelData buf !! c = Some channel /\
        length channel = 3%nat /\
        [1; -2; 3; -4; 5; -6] !! (i * 2 + c)%nat = Some v /\
        channel !! i = Some (v # 32768)%Q.
Proof.
  apply (decodeAudioData_deinterleaves [1; -2; 3; -4; 5; -6] 24000 2 3).
  - lia.
  - lia.
  - reflexivity.
  - repeat constructor; discriminate.
  - split; discriminate.
Defined.

(** *** The quantiser of [createBlob] keeps the order of the samples *)

Lemma Qtrunc_monotone (p q : Q) : (p <= q)%Q -> Qtrunc p <= Qtrunc q.
Proof.
  unfold Qle, Qtrunc. destruct p as [n1 d1], q as [n2 d2]. cbn. intros H.
  destruct (Z_le_gt_dec 0 n1) as [Hn1 | Hn1].
  - assert (Hn2 : 0 <= n2) by nia.
    pose proof (quot_nonneg_bounds n1 (Zpos d1) Hn1 ltac:(lia)) as B1.
    pose proof (quot_nonneg_bounds n2 (Zpos d2) Hn2 ltac:(lia)) as B2.
    revert B1 B2. generalize (n1 ÷ Zpos d1) (n2 ÷ Zpos d2). intros m1 m2 B1 B2.
    destruct (Z_le_gt_dec m1 m2) as [? | Hgt]; [assumption | exfalso].
    assert (Zpos d1 * Zpos d2 * (m2 + 1) <= Zpos d1 * Zpos d2 * m1) by nia.
    nia.
  - pose proof (quot_nonpos_bounds n1 (Zpos d1) ltac:(lia) ltac:(lia)) as B1.
    destruct (Z_le_gt_dec 0 n2) as [Hn2 | Hn2].
    + pose proof (quot_nonneg_bounds n2 (Zpos d2) Hn2 ltac:(lia)) as B2.
      revert B1 B2. generalize (n1 ÷ Zpos d1) (n2 ÷ Zpos d2). intros m1 m2 B1 B2.
      assert (m1 <= 0) by nia. assert (0 <= m2) by nia. lia.
    + pose proof (quot_nonpos_bounds n2 (Zpos d2) ltac:(lia) ltac:(lia)) as B2.
      revert B1 B2. generalize (n1 ÷ Zpos d1) (n2 ÷ Zpos d2). intros m1 m2 B1 B2.
      destruct (Z_le_gt_dec m1 m2) as [? | Hgt]; [assumption | exfalso].
      assert (Zpos d1 * Zpos d2 * (m2 + 1) <= Zpos d1 * Zpos d2 * m1) by nia.
      nia.
Qed.

Lemma clamp_monotone (p q : Q) :
  (p <= q)%Q -> (Qmax (-1 # 1) (Qmin 1 p) <= Qmax (-1 # 1) (Qmin 1 q))%Q.
Proof.
  intros H. apply Q.max_le_compat_l, Q.min_le_compat_l, H.
Qed.

(** The quantiser never swaps two samples: a sample that is not larger is
    stored as a value that is not larger.  It keeps the sign as well: zero
    is stored as 0, a sample at or above zero as a value at or above 0, a
    sample at or below zero as a value at or below 0. *)
Theorem createBlob_sample_monotone (p q : Q) :
  (p <= q)%Q ->
  createBlob_sample (Fin p) <= createBlob_sample (Fin q) /\
  ((0 <= p)%Q -> 0 <= createBlob_sample (Fin p)) /\
  ((q <= 0)%Q -> createBlob_sample (Fin q) <= 0).
Proof.
  intros H.
  assert (Hsign : forall x,
             let c := Qmax (-1 # 1) (Qmin 1 x) in
             (Qle_bool 0 c = true -> 0 <= createBlob_sample (Fin x)) /\
             (Qle_bool 0 c = false -> createBlob_sample (Fin x) <= 0)).
  { intros x c. rewrite createBlob_sample_Fin. fold c.
    pose proof (clamp_bounds x) as [Hlo Hhi]. fold c in Hlo, Hhi.
    split; intros E; rewrite E.
    - apply Qle_bool_iff in E.
      destruct (scaled_sample_nonneg c (conj E Hhi)) as [? _]. lia.
    - apply Qle_bool_false_lt in E.
      destruct (scaled_sample_neg c Hlo E) as [? _]. lia. }
  split; [| split].
  - pose proof (clamp_monotone p q H) as Hc.
    pose proof (Hsign p) as [Pp Np]. pose proof (Hsign q) as [Pq Nq].
    cbv zeta in Pp, Np, Pq, Nq.
    rewrite !createBlob_sample_Fin in *.
    destruct (Qle_bool 0 (Qmax (-1 # 1) (Qmin 1 p))) eqn:Ep;
      destruct (Qle_bool 0 (Qmax (-1 # 1) (Qmin 1 q))) eqn:Eq.
    + apply Qtrunc_monotone. apply Qmult_le_compat_r; [exact Hc | discriminate].
    + apply Qle_bool_iff in Ep. apply Qle_bool_false_lt in Eq. exfalso.
      apply (Qlt_irrefl 0). eapply Qle_lt_trans; [exact Ep |].
      eapply Qle_lt_trans; [exact Hc | exact Eq].
    + specialize (Np eq_refl). specialize (Pq eq_refl). lia.
    + apply Qtrunc_monotone. apply Qmult_le_compat_r; [exact Hc | discriminate].
  - intros Hp. apply (Hsign p).
    apply Qle_bool_iff. apply Q.max_le_iff. right.
    apply Q.min_glb; [discriminate | exact Hp].
  - intros Hq. pose proof (Hsign q) as [_ Nq]. cbv zeta in Nq.
    destruct (Qle_bool 0 (Qmax (-1 # 1) (Qmin 1 q))) eqn:E;
      [| apply Nq; reflexivity].
    assert (Hc0 : (Qmax (-1 # 1) (Qmin 1 q) <= 0)%Q).
    { apply Q.max_lub; [discriminate |].
      eapply Qle_trans; [apply Q.le_min_r | exact Hq]. }
    rewrite createBlob_sample_Fin, E.
    apply (Qtrunc_monotone _ 0%Q). lra.
Qed.

Lemma createBlob_sample_monotone_witness :
  createBlob_sample (Fin (-1 # 4)) <= createBlob_sample (Fin (1 # 2)) /\
  ((0 <= -1 # 4)%Q -> 0 <= createBlob_sample (Fin (-1 # 4))) /\
  ((1 # 2 <= 0)%Q -> createBlob_sample (Fin (1 # 2)) <= 0).
Proof.
  apply (createBlob_sample_monotone (-1 # 4) (1 # 2)). discriminate.
Defined.

(** * Further properties of the session *)

Lemma append_nil_r (s : string) : s +:+ EmptyString = s.
Proof.
  induction s as [| c s IH]; [reflexivity |].
  change (String c (s +:+ EmptyString) = String c s). f_equal. exact IH.
Qed.

Lemma append_assoc (s1 s2 s3 : string) : (s1 +:+ s2) +:+ s3 = s1 +:+ (s2 +:+ s3).
Proof.
  induction s1 as [| c s1 IH]; [reflexivity |].
  change (String c ((s1 +:+ s2) +:+ s3) = String c (s1 +:+ (s2 +:+ s3))).
  f_equal. exact IH.
Qed.

(** A commit of a message of role [ρ]: whatever its text, the next render
    shows one more message, of that role. *)
Lemma shown_roles_after_commit (ρ : Role) (textOf : Refs -> string)
    (pending : bool) r0 n (h : Hook (list ChatMessage)) r d :
  (pending = false -> queue h = []) ->
  map role
    (memoizedState
       (processQueue r d
          (dispatchSetState fresh_array
             (fun r d prev =>
                prev ++ [ {| role := ρ; text := textOf r; message_timestamp := d |} ])
             pending r0 n h)))
  = map role (memoizedState (processQueue r d h)) ++ [ρ].
Proof.
  intros Hidle. unfold dispatchSetState, fresh_array.
  destruct pending; rewrite processQueue_snoc; cbn [eagerState action].
  - rewrite map_app. reflexivity.
  - unfold processQueue. rewrite (Hidle eq_refl). cbn [queue fold_left memoizedState].
    rewrite map_app. reflexivity.
Qed.

Section SessionBehaviour.

Variable toLocaleString : Date -> string.

Lemma handleTranscriptions_buffers message a :
  exists a1,
    handleTranscriptions message a = (Done tt, a1) /\
    currentInputTranscription (refs a1)
      = currentInputTranscription (refs a) +:+ input_delta message /\
    currentOutputTranscription (refs a1)
      = currentOutputTranscription (refs a) +:+ output_delta message /\
    transcripts a1 = transcripts a.
Proof.
  unfold handleTranscriptions, input_delta, output_delta.
  destruct (serverContent message ≫= inputTranscription);
    destruct (serverContent message ≫= outputTranscription);
    cbv [mbind mret Handler_bind Handler_ret modify];
    eexists; (split; [reflexivity |]); cbn; rewrite ?append_nil_r; auto.
Qed.

Lemma handleTurnComplete_buffers message now a :
  exists a1,
    handleTurnComplete message now a = (Done tt, a1) /\
    (turn_completes message = false -> a1 = a) /\
    (turn_completes message = true ->
     currentInputTranscription (refs a1) = EmptyString /\
     currentOutputTranscription (refs a1) = EmptyString /\
     forall r d,
       map role (shown transcripts r d a1)
       = map role (shown transcripts r d a)
         ++ (if nonempty (currentInputTranscription (refs a)) then [user] else [])
         ++ (if nonempty (currentOutputTranscription (refs a)) then [model] else [])).
Proof.
  unfold handleTurnComplete, turn_completes.
  destruct (default false (turnComplete <$> serverContent message));
    cbv [mbind mret Handler_bind Handler_ret modify gets];
    [| eexists; split; [reflexivity |]; split; [reflexivity | discriminate]].
  destruct (nonempty (currentInputTranscription (refs a))) eqn:Ein;
    cbn [refs with_refs setTranscripts currentOutputTranscription
         set_currentInputTranscription];
    destruct (nonempty (currentOutputTranscription (refs a))) eqn:Eout;
    (eexists; split; [reflexivity |]; split; [discriminate |]; intros _);
    cbn [refs with_refs setTranscripts currentOutputTranscription
         currentInputTranscription set_currentInputTranscription
         set_currentOutputTranscription].
  - repeat split. intros r d. unfold shown.
    cbn [transcripts with_refs setTranscripts].
    rewrite shown_roles_after_commit.
    + cbn [transcripts with_refs setTranscripts].
      rewrite shown_roles_after_commit; [rewrite <- app_assoc; reflexivity |].
      intros Hl. apply (lanes_false_idle a Hl).
    + intros Hl.
      match type of Hl with lanes ?x = false =>
        apply (lanes_false_idle x Hl) end.
  - split; [reflexivity |]. split.
    + destruct (currentOutputTranscription (refs a)); [reflexivity | discriminate].
    + intros r d. unfold shown. cbn [transcripts with_refs setTranscripts].
      rewrite shown_roles_after_commit; [rewrite app_nil_r; reflexivity |].
      intros Hl. apply (lanes_false_idle a Hl).
  - split; [| split; [reflexivity |]].
    + destruct (currentInputTranscription (refs a)); [reflexivity | discriminate].
    + intros r d. unfold shown. cbn [transcripts with_refs setTranscripts].
      rewrite shown_roles_after_commit; [reflexivity |].
      intros Hl. apply (lanes_false_idle a Hl).
  - split; [| split].
    + destruct (currentInputTranscription (refs a)); [reflexivity | discriminate].
    + destruct (currentOutputTranscription (refs a)); [reflexivity | discriminate].
    + intros r d. cbn [app]. rewrite app_nil_r. reflexivity.
Qed.

Lemma handleToolCall_keeps_transcript message now a :
  exists a1,
    handleToolCall toLocaleString message now a = (Done tt, a1) /\
    refs a1 = refs a /\ transcripts a1 = transcripts a.
Proof.
  rewrite handleToolCall_eq. eexists. split; [reflexivity |].
  destruct (toolCall message) as [tc |]; [| auto].
  destruct (save_steps_frame toLocaleString now (functionCalls tc) a)
    as (_ & T & _ & R).
  split; [exact R | exact T].
Qed.

(** The handler, block by block, on a message whose audio decodes. *)
Lemma onmessage_blocks message currentTime now a :
  audio_decodes message = true ->
  exists a1 a2 a3 a4,
    handleAudio message currentTime a = (Done tt, a1) /\
    handleTranscriptions message a1 = (Done tt, a2) /\
    handleTurnComplete message now a2 = (Done tt, a3) /\
    handleToolCall toLocaleString message now a3 = (Done tt, a4) /\
    onmessage toLocaleString message currentTime now a = (Done tt, a4).
Proof.
  intros Haudio.
  pose proof (handleAudio_completes message currentTime a Haudio) as Hdone.
  destruct (handleAudio message currentTime a) as [o a1] eqn:E1.
  cbn [fst] in Hdone. subst o.
  destruct (handleTranscriptions_buffers message a1) as (a2 & E2 & _).
  destruct (handleTurnComplete_buffers message now a2) as (a3 & E3 & _).
  destruct (handleToolCall_keeps_transcript message now a3) as (a4 & E4 & _).
  exists a1, a2, a3, a4. repeat split; try assumption.
  unfold onmessage, mbind, Handler_bind. rewrite E1, E2, E3. exact E4.
Qed.

(** What the delivery of a message does to the two transcription buffers
    and to the roles of the transcript. *)
Lemma deliver_transcription (a : App) (e : Inbound) :
  audio_decodes (inbound_message e) = true ->
  let a' := deliver toLocaleString a e in
  let input := currentInputTranscription (refs a) +:+ input_delta (inbound_message e) in
  let output := currentOutputTranscription (refs a) +:+ output_delta (inbound_message e) in
  (turn_completes (inbound_message e) = false ->
   currentInputTranscription (refs a') = input /\
   currentOutputTranscription (refs a') = output /\
   transcripts a' = transcripts a) /\
  (turn_completes (inbound_message e) = true ->
   currentInputTranscription (refs a') = EmptyString /\
   currentOutputTranscription (refs a') = EmptyString /\
   forall r d,
     map role (shown transcripts r d a')
     = map role (shown transcripts r d a)
       ++ (if nonempty input then [user] else [])
       ++ (if nonempty output then [model] else [])).
Proof.
  destruct e as [message currentTime now].
  cbn [inbound_message inbound_currentTime inbound_now]. intros Haudio.
  destruct (onmessage_blocks message currentTime now a Haudio)
    as (a1 & a2 & a3 & a4 & E1 & E2 & E3 & E4 & E).
  unfold deliver, run. cbn [inbound_message inbound_currentTime inbound_now].
  rewrite E. cbn [snd].
  pose proof (handleAudio_frame message currentTime a) as F1.
  rewrite E1 in F1. cbn [snd] in F1.
  destruct F1 as (_ & _ & T1 & _ & _ & _ & I1 & O1).
  destruct (handleTranscriptions_buffers message a1) as (b2 & E2' & I2 & O2 & T2).
  rewrite E2 in E2'. injection E2' as <-.
  destruct (handleTurnComplete_buffers message now a2) as (b3 & E3' & N3 & Y3).
  rewrite E3 in E3'. injection E3' as <-.
  destruct (handleToolCall_keeps_transcript message now a3) as (b4 & E4' & R4 & T4).
  rewrite E4 in E4'. injection E4' as <-.
  rewrite R4. split.
  - intros Hno. rewrite (N3 Hno), I2, O2, I1, O1, T4, (N3 Hno), T2, T1. auto.
  - intros Hyes. destruct (Y3 Hyes) as (I3 & O3 & Roles).
    split; [exact I3 |]. split; [exact O3 |].
    intros r d. unfold shown in *. rewrite T4, Roles, T2, T1, I2, O2, I1, O1.
    reflexivity.
Qed.

(** Transcription deltas are applied in arrival order.  Over any sequence
    of messages that do not complete a turn (and whose audio, if any,
    decodes), the buffer of each role ends as what it held followed by the
    texts of that role's deltas, in order; nothing is committed to the
    transcript. *)
Theorem deltas_accumulate_in_order (a : App) (es : list Inbound) :
  Forall (fun e => audio_decodes (inbound_message e) = true /\
                   turn_completes (inbound_message e) = false) es ->
  let a' := fold_left (deliver toLocaleString) es a in
  currentInputTranscription (refs a')
    = currentInputTranscription (refs a)
      +:+ fold_right String.append EmptyString
            (map (fun e => input_delta (inbound_message e)) es) /\
  currentOutputTranscription (refs a')
    = currentOutputTranscription (refs a)
      +:+ fold_right String.append EmptyString
            (map (fun e => output_delta (inbound_message e)) es) /\
  transcripts a' = transcripts a.
Proof.
  intros H. revert a. induction H as [| e es [Ha Ht] _ IH]; intros a.
  - cbn. rewrite !append_nil_r. auto.
  - cbn [fold_left map fold_right].
    destruct (IH (deliver toLocaleString a e)) as (I & O & T).
    destruct (deliver_transcription a e Ha) as [Hno _]. cbv zeta in Hno.
    destruct (Hno Ht) as (I1 & O1 & T1).
    cbv zeta. rewrite I, O, T, I1, O1, T1, !append_assoc. auto.
Qed.


(** A message whose audio cannot be decoded (bad base64, an odd number of
    bytes, no frame) while the output context is set makes the handler
    throw after it set the speaking flag and moved the cursor to
    [max(nextStart, currentTime)]: nothing is scheduled, and the rest of
    the message is not processed, so its deltas are not buffered, its turn
    completion commits nothing, and its tool calls get no response. *)
Theorem undecodable_audio_aborts_handler (a : App) (message : LiveServerMessage)
    (currentTime : Q) (now : Date) (ctx : AudioContext) :
  truthy (base64Audio_of message) = true ->
  inbound_audio message = None ->
  outputAudioContextRef (refs a) = Some ctx ->
  exists a',
    onmessage toLocaleString message currentTime now a = (Thrown, a') /\
    (forall r d, shown isSpeaking r d a' = true) /\
    nextStartTimeRef (refs a') = Qmax (nextStartTimeRef (refs a)) currentTime /\
    started a' = started a /\
    sourcesRef (refs a') = sourcesRef (refs a) /\
    currentInputTranscription (refs a') = currentInputTranscription (refs a) /\
    currentOutputTranscription (refs a') = currentOutputTranscription (refs a) /\
    transcripts a' = transcripts a /\
    customerData a' = customerData a /\
    session a' = session a.
Proof.
  intros Ht Hnone Hctx.
  rewrite onmessage_eq, handleAudio_eq, Ht, Hctx, Hnone. cbv zeta.
  eexists. split; [reflexivity |]. split.
  - intros r d. apply (shown_after_setIsSpeaking true a).
  - unfold started. cbn. repeat split.
Qed.

(** ** Playback: the cursor and the sources *)

Lemma Qmax_l_eq (x y : Q) : (y <= x)%Q -> Qmax x y = x.
Proof.
  intros H. unfold Qmax, GenericMinMax.gmax.
  destruct (x ?= y)%Q eqn:E; try reflexivity.
  apply Qlt_alt in E. exfalso. apply (Qlt_not_le _ _ E H).
Qed.

Lemma Qmax_r_eq (x y : Q) : (x < y)%Q -> Qmax x y = y.
Proof.
  intros H. unfold Qmax, GenericMinMax.gmax.
  destruct (x ?= y)%Q eqn:E; [| reflexivity |]; exfalso.
  - apply Qeq_alt in E. rewrite E in H. apply (Qlt_irrefl _ H).
  - apply Qgt_alt in E. apply (Qlt_irrefl x). eapply Qlt_trans; eassumption.
Qed.

(** Two chunks in a row: when the second arrives before the first has
    finished playing, it starts at the very instant the first ends, with no
    gap; when the clock has passed that instant, it starts at the clock. *)
Theorem consecutive_chunks_are_gapless (a : App) (e1 e2 : Inbound)
    (buf1 buf2 : AudioBuffer) (ctx : AudioContext) :
  outputAudioContextRef (refs a) = Some ctx ->
  inbound_audio (inbound_message e1) = Some buf1 ->
  inbound_audio (inbound_message e2) = Some buf2 ->
  let a2 := deliver toLocaleString (deliver toLocaleString a e1) e2 in
  exists s1 s2,
    started a2 = ctx_started ctx ++ [s1; s2] /\
    node_buffer s1 = buf1 /\ node_buffer s2 = buf2 /\
    node_when s2 = Qmax (node_end s1) (inbound_currentTime e2) /\
    ((inbound_currentTime e2 <= node_end s1)%Q -> node_when s2 = node_end s1) /\
    ((node_end s1 < inbound_currentTime e2)%Q ->
     node_when s2 = inbound_currentTime e2) /\
    nextStartTimeRef (refs a2) = node_end s2.
Proof.
  intros Hctx H1 H2 a2.
  pose proof (deliver_playback toLocaleString a e1) as P1. cbv zeta in P1.
  rewrite H1, Hctx in P1. destruct P1 as (O1 & N1 & _).
  pose proof (deliver_playback toLocaleString (deliver toLocaleString a e1) e2) as P2.
  cbv zeta in P2. fold a2 in P2. rewrite H2, O1, N1 in P2.
  destruct P2 as (O2 & N2 & _).
  eexists _, _. unfold started. rewrite O2.
  cbn [ctx_started AudioContext_start]. rewrite <- app_assoc.
  split; [reflexivity |]. unfold node_end. cbn [node_buffer node_when].
  repeat split.
  - apply Qmax_l_eq.
  - apply Qmax_r_eq.
  - exact N2.
Qed.

Lemma deliver_cursor_step (a : App) (e : Inbound) :
  (nextStartTimeRef (refs a) <= nextStartTimeRef (refs (deliver toLocaleString a e)))%Q /\
  (is_Some (outputAudioContextRef (refs a)) ->
   is_Some (outputAudioContextRef (refs (deliver toLocaleString a e))) /\
   length (started (deliver toLocaleString a e))
   = (length (started a)
      + if decide (is_Some (inbound_audio (inbound_message e))) then 1 else 0)%nat).
Proof.
  pose proof (deliver_playback toLocaleString a e) as P. cbv zeta in P.
  pose proof (Q.le_max_l (nextStartTimeRef (refs a)) (inbound_currentTime e)) as Hmax.
  unfold started.
  destruct (inbound_audio (inbound_message e)) as [buf |];
    destruct (outputAudioContextRef (refs a)) as [ctx |].
  - destruct P as (-> & -> & _). pose proof (duration_nonneg buf).
    split; [lra |]. intros _. split; [eauto |].
    cbn [ctx_started AudioContext_start]. rewrite length_app.
    destruct (decide (is_Some (Some buf))) as [_ | n]; [reflexivity |].
    exfalso. apply n. eauto.
  - destruct P as (-> & _ & [-> | (_ & [? ?] & _)]); [| discriminate].
    split; [apply Qle_refl |]. intros [? ?]. discriminate.
  - destruct P as (-> & _ & [-> | (_ & _ & ->)]);
      (split; [first [apply Qle_refl | exact Hmax] |]); intros _;
      (split; [eauto |]);
      (destruct (decide (is_Some (@None AudioBuffer))) as [[? ?] | _];
       [discriminate | lia]).
  - destruct P as (-> & _ & [-> | (_ & [? ?] & _)]); [| discriminate].
    split; [apply Qle_refl |]. intros [? ?]. discriminate.
Qed.

(** The cursor never moves back, whatever the messages. *)
Theorem cursor_never_moves_back (a : App) (es : list Inbound) :
  (nextStartTimeRef (refs a)
   <= nextStartTimeRef (refs (fold_left (deliver toLocaleString) es a)))%Q.
Proof.
  revert a. induction es as [| e es IH]; intros a; [apply Qle_refl |].
  cbn [fold_left]. eapply Qle_trans; [| apply IH].
  apply deliver_cursor_step.
Qed.

(** While the output context is set, every message whose audio decodes
    starts exactly one source and no other message starts any. *)
Theorem one_source_per_decodable_chunk (a : App) (es : list Inbound) :
  is_Some (outputAudioContextRef (refs a)) ->
  length (started (fold_left (deliver toLocaleString) es a))
  = (length (started a)
     + length (filter (fun e => is_Some (inbound_audio (inbound_message e))) es))%nat.
Proof.
  revert a. induction es as [| e es IH]; intros a Hctx; [cbn; lia |].
  cbn [fold_left].
  destruct (deliver_cursor_step a e) as [_ Hstep].
  destruct (Hstep Hctx) as [Hctx' Hlen].
  rewrite (IH _ Hctx'), Hlen, filter_cons.
  destruct (decide (is_Some (inbound_audio (inbound_message e)))); cbn [length]; lia.
Qed.

(** ** The speaking flag *)

(** A chunk that is scheduled sets the speaking flag; when its source
    ends, the source leaves [sourcesRef], and the flag is turned off only
    if no other source is left in it. *)
Theorem speaking_until_last_source_ends (a : App) (e : Inbound)
    (buf : AudioBuffer) :
  is_Some (outputAudioContextRef (refs a)) ->
  inbound_audio (inbound_message e) = Some buf ->
  nextNodeId a ∉ sourcesRef (refs a) ->
  let a1 := deliver toLocaleString a e in
  let a2 := source_ended (nextNodeId a) a1 in
  (forall r d, shown isSpeaking r d a1 = true) /\
  sourcesRef (refs a1) = {[ nextNodeId a ]} ∪ sourcesRef (refs a) /\
  sourcesRef (refs a2) = sourcesRef (refs a) /\
  (sourcesRef (refs a) = ∅ -> forall r d, shown isSpeaking r d a2 = false) /\
  (sourcesRef (refs a) <> ∅ -> forall r d, shown isSpeaking r d a2 = true).
Proof.
  intros [ctx Hctx] Hbuf Hfresh a1 a2.
  pose proof (deliver_playback toLocaleString a e) as P. cbv zeta in P.
  fold a1 in P. rewrite Hbuf, Hctx in P. destruct P as (_ & _ & Hsrc).
  pose proof (deliver_sets_speaking toLocaleString a e
                (inbound_audio_truthy _ _ Hbuf)) as Hsp.
  fold a1 in Hsp.
  assert (Hon : forall r d, shown isSpeaking r d a1 = true).
  { intros r d. unfold shown. rewrite Hsp. apply (shown_after_setIsSpeaking true a). }
  assert (Hleft : sourcesRef (refs a1) ∖ {[ nextNodeId a ]} = sourcesRef (refs a)).
  { rewrite Hsrc. apply set_eq. intros x.
    rewrite elem_of_difference, elem_of_union, !elem_of_singleton.
    split; [intros [[-> | Hx] Hne]; [contradiction | exact Hx] |].
    intros Hx. split; [right; exact Hx |]. intros ->. contradiction. }
  split; [exact Hon |]. split; [exact Hsrc |].
  unfold a2, source_ended. cbv zeta.
  set (x := with_refs (fun r => set_sourcesRef (sourcesRef r ∖ {[ nextNodeId a ]}) r) a1).
  assert (Hx : sourcesRef (refs x) = sourcesRef (refs a)) by exact Hleft.
  assert (Hxs : isSpeaking x = isSpeaking a1) by reflexivity.
  rewrite Hx.
  destruct (Nat.eqb_spec (size (sourcesRef (refs a))) 0) as [Hz | Hnz].
  - split; [exact Hx |]. split.
    + intros _ r d. apply shown_after_setIsSpeaking.
    + intros Hne. exfalso. apply Hne.
      apply leibniz_equiv, size_empty_iff, Hz.
  - split; [exact Hx |]. split.
    + intros He. exfalso. apply Hnz. rewrite He. apply size_empty.
    + intros _ r d. unfold shown. rewrite Hxs. apply (Hon r d).
Qed.

(** ** Messages without, and with incomplete, tool calls *)

(** A message without a tool call hands nothing to the session and queues
    no record, whether its handler completes or throws. *)
Theorem message_without_tool_call_sends_nothing (a : App) (e : Inbound) :
  toolCall (inbound_message e) = None ->
  session (deliver toLocaleString a e) = session a /\
  customerData (deliver toLocaleString a e) = customerData a.
Proof.
  destruct e as [message currentTime now].
  cbn [inbound_message]. intros Hnone.
  unfold deliver, run. cbn [inbound_message inbound_currentTime inbound_now].
  rewrite onmessage_eq.
  pose proof (handleAudio_frame message currentTime a) as F.
  destruct (handleAudio message currentTime a) as [[[] |] a1]; cbn [snd] in F;
    destruct F as (_ & C1 & _ & _ & S1 & _); [| cbn; auto].
  destruct (handleTranscriptions_spec message a1) as (a2 & E2 & _ & C2 & _ & S2).
  destruct (handleTurnComplete_spec message now a2) as (a3 & E3 & _ & C3 & S3).
  unfold mbind, Handler_bind. rewrite E2, E3, handleToolCall_eq, Hnone.
  cbn [snd]. split; congruence.
Qed.

(** The handler does not validate the arguments of saveCustomerDetails:
    whatever they are, one record is appended and success is reported; a
    field whose argument is missing is [undefined] in the record, and is
    exported as the text undefined. *)
Theorem save_call_is_not_validated (a : App) (message : LiveServerMessage)
    (fc : FunctionCall) (currentTime : Q) (now : Date) :
  toolCall message = Some {| functionCalls := [fc] |} ->
  audio_decodes message = true ->
  fc_name fc = "saveCustomerDetails"%string ->
  exists (a' : App) (record : CustomerDetails),
    onmessage toLocaleString message currentTime now a = (Done tt, a') /\
    (forall r d, shown customerData r d a' = shown customerData r d a ++ [record]) /\
    toolResponses (session a')
    = toolResponses (session a)
      ++ [[ {| fr_id := fc_id fc; fr_name := "saveCustomerDetails";
               fr_result := "Success: Customer details saved." |} ]] /\
    timestamp record = toLocaleString now /\
    (fc_args fc !! "fullName"%string = None ->
     fullName record = JsUndefined /\
     customerRow record !! 0%nat = Some (quoted "undefined")) /\
    (fc_args fc !! "phoneNumber"%string = None ->
     phoneNumber record = JsUndefined /\
     customerRow record !! 1%nat = Some (quoted "undefined")) /\
    (fc_args fc !! "monthlyIncome"%string = None ->
     monthlyIncome record = JsUndefined /\
     customerRow record !! 2%nat = Some (quoted "undefined")) /\
    (fc_args fc !! "age"%string = None ->
     age record = JsUndefined /\
     customerRow record !! 3%nat = Some (quoted "undefined")) /\
    (fc_args fc !! "insuranceType"%string = None ->
     insuranceType record = JsUndefined /\
     customerRow record !! 4%nat = Some (quoted "undefined")).
Proof.
  intros Htc Haudio Hname.
  pose proof (handleAudio_completes message currentTime a Haudio) as Hdone.
  pose proof (handleAudio_frame message currentTime a) as Hframe.
  rewrite onmessage_eq.
  destruct (handleAudio message currentTime a) as [o a1].
  cbn [fst snd] in Hdone, Hframe. subst o.
  destruct (tail_spec toLocaleString message now a1) as (a2 & E & _ & Hs & Hc).
  rewrite E. exists a2, (newCustomer toLocaleString fc now).
  destruct Hframe as (_ & Hcd & _ & _ & Hsession & _).
  rewrite Htc in Hs, Hc. cbn [functionCalls] in Hs, Hc.
  assert (Hsave : is_save fc = true) by (unfold is_save; rewrite Hname; reflexivity).
  split; [reflexivity |]. split; [| split; [| split; [reflexivity |]]].
  - intros r d. unfold shown. rewrite Hc, Hcd.
    rewrite filter_cons_True by (rewrite Hsave; exact I). reflexivity.
  - rewrite Hs, Hsession. cbn [map sendToolResponse toolResponses].
    unfold response_of. rewrite Hname. reflexivity.
  - repeat match goal with |- _ /\ _ => split end;
      intros Hk; unfold customerRow, newCustomer, property;
      cbn [fullName phoneNumber monthlyIncome age insuranceType];
      rewrite Hk; split; reflexivity.
Qed.

End SessionBehaviour.

(** ** Connection life cycle *)

Lemma shown_volume_after_set (v : Q) (a : App) r d :
  (shown volumeLevel r d (setVolumeLevel v a) == v)%Q.
Proof.
  unfold shown. cbn [volumeLevel setVolumeLevel]. symmetry.
  apply (render_after_set_value Qeq_bool Qeq); [reflexivity | |].
  - intros x y. apply Qeq_bool_iff.
  - intros Hl. apply (lanes_false_idle a Hl).
Qed.

(** [onclose], [onerror] and [disconnect] end a call without discarding
    anything: the captured records, the transcript, the two transcription
    buffers, the cursor and the set of sources are as before; the state
    shown becomes DISCONNECTED (ERROR after [onerror]), the speaking flag
    is off, and [disconnect] also resets the level to 0. *)
Theorem teardown_keeps_the_data (a : App) :
  let kept (a' : App) :=
    customerData a' = customerData a /\
    transcripts a' = transcripts a /\
    currentInputTranscription (refs a') = currentInputTranscription (refs a) /\
    currentOutputTranscription (refs a') = currentOutputTranscription (refs a) /\
    nextStartTimeRef (refs a') = nextStartTimeRef (refs a) /\
    sourcesRef (refs a') = sourcesRef (refs a) /\
    forall r d, shown isSpeaking r d a' = false in
  (kept (onclose a) /\ forall r d, shown connectionState r d (onclose a) = DISCONNECTED) /\
  (kept (onerror a) /\ forall r d, shown connectionState r d (onerror a) = ERROR) /\
  (kept (disconnect a) /\
   (forall r d, shown connectionState r d (disconnect a) = DISCONNECTED) /\
   (forall r d, shown volumeLevel r d (disconnect a) == 0)%Q).
Proof.
  cbv zeta. split; [| split].
  - split; [repeat split |].
    + intros r d. apply (shown_after_setIsSpeaking false).
    + intros r d. apply (shown_after_setConnectionState DISCONNECTED a).
  - split; [repeat split |].
    + intros r d. apply (shown_after_setIsSpeaking false).
    + intros r d. apply (shown_after_setConnectionState ERROR a).
  - split; [| split].
    + assert (H : customerData (disconnect a) = customerData a /\
                  transcripts (disconnect a) = transcripts a /\
                  currentInputTranscription (refs (disconnect a))
                  = currentInputTranscription (refs a) /\
                  currentOutputTranscription (refs (disconnect a))
                  = currentOutputTranscription (refs a)).
      { unfold disconnect.
        destruct a as [cs cd tr vl sp [ic oc ns so st pr ci co] se ur nn].
        cbn [refs sessionPromiseRef].
        destruct pr, ic as [ic |], oc as [oc |], st as [st |]; cbn; auto. }
      destruct H as (H1 & H2 & H3 & H4).
      destruct (disconnect_effects a) as (_ & _ & _ & _ & H5 & H6 & _).
      repeat split; try assumption.
      intros r d. apply (disconnect_shows_idle a r d).
    + intros r d. apply (disconnect_shows_idle a r d).
    + intros r d. unfold disconnect. apply shown_volume_after_set.
Qed.

(** The outcomes of [connectToGemini].  Without a key nothing happens.
    With a key the state shown is CONNECTING, the cursor is reset to 0 and
    two fresh running contexts (16 kHz in, 24 kHz out) replace whatever the
    refs held; when the microphone is granted the stream and the session
    promise are stored and [onopen] then shows CONNECTED; when it is
    refused the state shown is ERROR, and the two contexts stay in their
    refs, running.  In no case are the captured records, the transcript,
    the transcription buffers or the set of sources reset. *)
Theorem connectToGemini_outcomes (a : App) :
  (forall stream, connectToGemini false stream a = a) /\
  (forall stream,
      let a1 := connectToGemini true stream a in
      inputAudioContextRef (refs a1) = Some (newAudioContext 16000) /\
      outputAudioContextRef (refs a1) = Some (newAudioContext 24000) /\
      nextStartTimeRef (refs a1) = 0%Q /\
      customerData a1 = customerData a /\
      transcripts a1 = transcripts a /\
      currentInputTranscription (refs a1) = currentInputTranscription (refs a) /\
      currentOutputTranscription (refs a1) = currentOutputTranscription (refs a) /\
      sourcesRef (refs a1) = sourcesRef (refs a)) /\
  (forall tracks,
      let a1 := connectToGemini true (Some tracks) a in
      (forall r d, shown connectionState r d a1 = CONNECTING) /\
      (forall r d, shown connectionState r d (onopen a1) = CONNECTED) /\
      streamRef (refs a1) = Some tracks /\
      sessionPromiseRef (refs a1) = sessionPromise) /\
  (let a1 := connectToGemini true None a in
   (forall r d, shown connectionState r d a1 = ERROR) /\
   streamRef (refs a1) = streamRef (refs a) /\
   sessionPromiseRef (refs a1) = sessionPromiseRef (refs a)).
Proof.
  split; [reflexivity |]. split; [| split].
  - intros [tracks |]; cbv zeta; repeat split.
  - intros tracks. cbv zeta. repeat split.
    + intros r d. apply (shown_after_setConnectionState CONNECTING a).
    + intros r d. apply shown_after_setConnectionState.
  - cbv zeta. repeat split.
    intros r d. unfold connectToGemini. apply shown_after_setConnectionState.
Qed.

(** A whole call, from [connectToGemini] through [onopen] to [disconnect],
    on any store (also one left by an earlier call): every resource of the
    call is released exactly once, each context closed by one [close()],
    each track ended by one [stop()], the session closed by one [close()],
    and no release is refused. *)
Theorem call_cycle_releases_once (a : App) (tracks : list MediaStreamTrack) :
  let a1 := disconnect (onopen (connectToGemini true (Some tracks) a)) in
  unhandledRejections a1 = unhandledRejections a /\
  inputAudioContextRef (refs a1)
    = Some {| ctx_sampleRate := 16000; ctx_state := closed;
              ctx_close_calls := 1; ctx_started := [] |} /\
  outputAudioContextRef (refs a1)
    = Some {| ctx_sampleRate := 24000; ctx_state := closed;
              ctx_close_calls := 1; ctx_started := [] |} /\
  streamRef (refs a1) = Some (map MediaStreamTrack_stop tracks) /\
  session a1 = {| session_open := false; session_close_calls := 1;
                  toolResponses := [] |} /\
  forall r d, shown connectionState r d a1 = DISCONNECTED.
Proof.
  cbv zeta.
  pose proof (disconnect_effects (onopen (connectToGemini true (Some tracks) a))) as E.
  cbv zeta in E. destruct E as (I & O & S & _ & _ & _ & Se & R).
  split; [| split; [| split; [| split; [| split]]]].
  - rewrite R. cbn. rewrite app_nil_r. reflexivity.
  - rewrite I. reflexivity.
  - rewrite O. reflexivity.
  - rewrite S. reflexivity.
  - rewrite Se. reflexivity.
  - intros r d. apply disconnect_shows_idle.
Qed.

(** [disconnect] on a store whose refs were never set (no call was ever
    started) releases nothing and fails nowhere: refs, session and
    rejections are untouched, and the state shown is DISCONNECTED. *)
Theorem disconnect_without_connection (a : App) :
  sessionPromiseRef (refs a) = null ->
  inputAudioContextRef (refs a) = None ->
  outputAudioContextRef (refs a) = None ->
  streamRef (refs a) = None ->
  refs (disconnect a) = refs a /\
  session (disconnect a) = session a /\
  unhandledRejections (disconnect a) = unhandledRejections a /\
  forall r d, shown connectionState r d (disconnect a) = DISCONNECTED.
Proof.
  intros Hp Hi Ho Hs.
  split; [| split; [| split]];
    [| | | intros r d; apply disconnect_shows_idle].
  all: unfold disconnect;
    destruct a as [cs cd tr vl sp [ic oc ns so st pr ci co] se ur nn];
    cbn in Hp, Hi, Ho, Hs; subst; reflexivity.
Qed.

Lemma disconnect_without_connection_witness :
  refs (disconnect initialApp) = refs initialApp /\
  session (disconnect initialApp) = session initialApp /\
  unhandledRejections (disconnect initialApp) = unhandledRejections initialApp /\
  forall r d, shown connectionState r d (disconnect initialApp) = DISCONNECTED.
Proof.
  apply (disconnect_without_connection initialApp); reflexivity.
Defined.

(** * Further properties of the export *)

Lemma escape_quotes_head (s : string) :
  match escape_quotes s with
  | EmptyString => s = EmptyString
  | String c rest =>
      exists s', s = String c s' /\
                 rest = if Ascii.eqb c "034"%char
                        then String c (escape_quotes s')
                        else escape_quotes s'
  end.
Proof.
  destruct s as [| c s']; [reflexivity |]. cbn [escape_quotes].
  destruct (Ascii.eqb c "034"%char) eqn:E; exists s'; rewrite E; auto.
Qed.

(** The escaping of the message text loses nothing: two texts that differ
    are written as fields that differ. *)
Theorem escape_quotes_injective (s1 s2 : string) :
  escape_quotes s1 = escape_quotes s2 -> s1 = s2.
Proof.
  revert s2. induction s1 as [| c s1 IH]; intros s2 H.
  - pose proof (escape_quotes_head s2) as Hh. rewrite <- H in Hh. auto.
  - pose proof (escape_quotes_head s2) as Hh. rewrite <- H in Hh.
    cbn [escape_quotes] in Hh.
    destruct (Ascii.eqb c "034"%char) eqn:E.
    + destruct Hh as (s' & -> & Hrest). rewrite E in Hrest.
      injection Hrest as Hrest. f_equal. apply IH, Hrest.
    + destruct Hh as (s' & -> & Hrest). rewrite E in Hrest.
      f_equal. apply IH, Hrest.
Qed.

Lemma escape_quotes_injective_witness :
  (String "034"%char "a" : string) = String "034"%char "a".
Proof.
  apply (escape_quotes_injective (String "034"%char "a") (String "034"%char "a")).
  reflexivity.
Defined.

(** The escaped text has one more character per double quote of the
    original and twice as many double quotes, and a text without double
    quotes is written as it is. *)
Theorem escape_quotes_doubles (s : string) :
  String.length (escape_quotes s) = (String.length s + count_quotes s)%nat /\
  count_quotes (escape_quotes s) = (2 * count_quotes s)%nat /\
  (count_quotes s = 0%nat -> escape_quotes s = s).
Proof.
  induction s as [| c s (IH1 & IH2 & IH3)]; [repeat split |].
  cbn [escape_quotes count_quotes String.length].
  destruct (Ascii.eqb c "034"%char) eqn:E;
    cbn [count_quotes String.length]; rewrite ?E; cbn [count_quotes String.length];
    rewrite ?E, ?IH1, ?IH2.
  - split; [lia | split; [lia | discriminate]].
  - split; [lia | split; [lia |]]. intros H. f_equal. apply IH3, H.
Qed.

(** * The further statements at concrete inputs *)

Lemma deltas_accumulate_in_order_witness :
  let es := [sample_inbound (inputDelta "Hello") 0;
             sample_inbound (outputDelta "Hi") 0;
             sample_inbound (inputDelta " there") 0] in
  let a' := fold_left (deliver sample_toLocaleString) es connectedApp in
  currentInputTranscription (refs a')
    = currentInputTranscription (refs connectedApp)
      +:+ fold_right String.append EmptyString
            (map (fun e => input_delta (inbound_message e)) es) /\
  currentOutputTranscription (refs a')
    = currentOutputTranscription (refs connectedApp)
      +:+ fold_right String.append EmptyString
            (map (fun e => output_delta (inbound_message e)) es) /\
  transcripts a' = transcripts connectedApp.
Proof.
  intros es.
  apply (deltas_accumulate_in_order sample_toLocaleString connectedApp es).
  repeat constructor.
Defined.


Lemma undecodable_audio_aborts_handler_witness :
  let a := connectedApp in
  let message := audioMessage sample_bad_chunk in
  exists a',
    onmessage sample_toLocaleString message (5 # 2) 7 a = (Thrown, a') /\
    (forall r d, shown isSpeaking r d a' = true) /\
    nextStartTimeRef (refs a') = Qmax (nextStartTimeRef (refs a)) (5 # 2) /\
    started a' = started a /\
    sourcesRef (refs a') = sourcesRef (refs a) /\
    currentInputTranscription (refs a') = currentInputTranscription (refs a) /\
    currentOutputTranscription (refs a') = currentOutputTranscription (refs a) /\
    transcripts a' = transcripts a /\
    customerData a' = customerData a /\
    session a' = session a.
Proof.
  intros a message.
  apply (undecodable_audio_aborts_handler sample_toLocaleString a message (5 # 2) 7
           (newAudioContext 24000)); reflexivity.
Defined.

Lemma consecutive_chunks_are_gapless_witness :
  let buf := {| numberOfChannels := 1; buffer_length := 3; sampleRate := 24000;
                channelData := [[0 # 32768; 32767 # 32768; -32768 # 32768]%Q] |} in
  let e1 := sample_inbound (audioMessage sample_chunk) 1 in
  let e2 := sample_inbound (audioMessage sample_chunk) 1 in
  let a2 := deliver sample_toLocaleString
              (deliver sample_toLocaleString connectedApp e1) e2 in
  exists s1 s2,
    started a2 = ctx_started (newAudioContext 24000) ++ [s1; s2] /\
    node_buffer s1 = buf /\ node_buffer s2 = buf /\
    node_when s2 = Qmax (node_end s1) (inbound_currentTime e2) /\
    ((inbound_currentTime e2 <= node_end s1)%Q -> node_when s2 = node_end s1) /\
    ((node_end s1 < inbound_currentTime e2)%Q ->
     node_when s2 = inbound_currentTime e2) /\
    nextStartTimeRef (refs a2) = node_end s2.
Proof.
  intros buf e1 e2.
  apply (consecutive_chunks_are_gapless sample_toLocaleString connectedApp e1 e2
           buf buf (newAudioContext 24000)); reflexivity.
Defined.

Lemma one_source_per_decodable_chunk_witness :
  let es := [sample_inbound (audioMessage sample_chunk) 1;
             sample_inbound (inputDelta "Hello") 2;
             sample_inbound (audioMessage sample_chunk) 3] in
  length (started (fold_left (deliver sample_toLocaleString) es connectedApp))
  = (length (started connectedApp)
     + length (filter (fun e => is_Some (inbound_audio (inbound_message e))) es))%nat.
Proof.
  intros es.
  apply (one_source_per_decodable_chunk sample_toLocaleString connectedApp es).
  exists (newAudioContext 24000). reflexivity.
Defined.

Lemma speaking_until_last_source_ends_witness :
  let a := connectedApp in
  let e := sample_inbound (audioMessage sample_chunk) 1 in
  let a1 := deliver sample_toLocaleString a e in
  let a2 := source_ended (nextNodeId a) a1 in
  (forall r d, shown isSpeaking r d a1 = true) /\
  sourcesRef (refs a1) = {[ nextNodeId a ]} ∪ sourcesRef (refs a) /\
  sourcesRef (refs a2) = sourcesRef (refs a) /\
  (sourcesRef (refs a) = ∅ -> forall r d, shown isSpeaking r d a2 = false) /\
  (sourcesRef (refs a) <> ∅ -> forall r d, shown isSpeaking r d a2 = true).
Proof.
  intros a e.
  apply (speaking_until_last_source_ends sample_toLocaleString a e
           {| numberOfChannels := 1; buffer_length := 3; sampleRate := 24000;
              channelData := [[0 # 32768; 32767 # 32768; -32768 # 32768]%Q] |}).
  - exists (newAudioContext 24000). reflexivity.
  - reflexivity.
  - change (0%nat ∉ (∅ : gset nat)). apply not_elem_of_empty.
Defined.

Lemma message_without_tool_call_sends_nothing_witness :
  let e := sample_inbound (inputDelta "Hello") 0 in
  session (deliver sample_toLocaleString connectedApp e) = session connectedApp /\
  customerData (deliver sample_toLocaleString connectedApp e)
  = customerData connectedApp.
Proof.
  intros e.
  apply (message_without_tool_call_sends_nothing sample_toLocaleString connectedApp e).
  reflexivity.
Defined.

Lemma save_call_is_not_validated_witness :
  let fc := sample_bare_save_call in
  let a := connectedApp in
  exists (a' : App) (record : CustomerDetails),
    onmessage sample_toLocaleString (toolCallMessage [fc]) 0 7 a = (Done tt, a') /\
    (forall r d, shown customerData r d a' = shown customerData r d a ++ [record]) /\
    toolResponses (session a')
    = toolResponses (session a)
      ++ [[ {| fr_id := fc_id fc; fr_name := "saveCustomerDetails";
               fr_result := "Success: Customer details saved." |} ]] /\
    timestamp record = sample_toLocaleString 7 /\
    (fc_args fc !! "fullName"%string = None ->
     fullName record = JsUndefined /\
     customerRow record !! 0%nat = Some (quoted "undefined")) /\
    (fc_args fc !! "phoneNumber"%string = None ->
     phoneNumber record = JsUndefined /\
     customerRow record !! 1%nat = Some (quoted "undefined")) /\
    (fc_args fc !! "monthlyIncome"%string = None ->
     monthlyIncome record = JsUndefined /\
     customerRow record !! 2%nat = Some (quoted "undefined")) /\
    (fc_args fc !! "age"%string = None ->
     age record = JsUndefined /\
     customerRow record !! 3%nat = Some (quoted "undefined")) /\
    (fc_args fc !! "insuranceType"%string = None ->
     insuranceType record = JsUndefined /\
     customerRow record !! 4%nat = Some (quoted "undefined")).
Proof.
  intros fc a.
  apply (save_call_is_not_validated sample_toLocaleString a (toolCallMessage [fc])
           fc 0 7); reflexivity.
Defined.
